(** * A page workspace with a content renderer: model of [app.py]

    The development embeds the page store of [app.py] (the [DATA]
    dictionary with [add_page], [update_page], [delete_page],
    [get_page_tree], [load_data]/[save_data]), the row handler
    [add_db_row], and the renderer [render_content]/[html_escape], and
    proves the properties the specification states about them.

    Conventions of the model:
    - a Python [str] is a [string]; each [ascii] stands for one code point
      below 256;
    - a Python [dict] is a [gmap]; the enumeration order of the [gmap] stands
      for the dictionary's iteration order, on which no statement below
      depends; a Python [list] is a [list];
    - module-level globals ([DATA], [SESSIONS], the file [pages.json]) are the
      fields of an explicit [world] that every operation takes and returns;
    - [uuid.uuid4()] is an input of the operation that draws it;
    - recursion that Python does not bound ([delete_page], [build_node]) takes
      a fuel argument and answers [OutOfFuel] when it is exhausted. *)

From Stdlib Require Import Ascii.
From stdpp Require Import gmap strings list fin_maps relations.


(** ** Strings *)

Definition LF : ascii := Eval cbv in ascii_of_nat 10.
Definition DQUOTE : ascii := Eval cbv in ascii_of_nat 34.
Definition newline : string := String LF "".
Definition dquote : string := String DQUOTE "".

(** [str.isspace] on the code points below 256. *)
Definition isspace (c : ascii) : bool :=
  let n := nat_of_ascii c in
  ((9 <=? n) && (n <=? 13)) || ((28 <=? n) && (n <=? 32))
  || (n =? 133) || (n =? 160).

Fixpoint lstrip (s : string) : string :=
  match s with
  | EmptyString => EmptyString
  | String c s' => if isspace c then lstrip s' else s
  end.

Fixpoint rstrip (s : string) : string :=
  match s with
  | EmptyString => EmptyString
  | String c s' =>
      match rstrip s' with
      | EmptyString => if isspace c then EmptyString else String c EmptyString
      | r => String c r
      end
  end.

(** [s.strip()] *)
Definition strip (s : string) : string := rstrip (lstrip s).

(** [s.startswith(p)] *)
Fixpoint startswith (p s : string) : bool :=
  match p, s with
  | EmptyString, _ => true
  | String a p', String b s' => if decide (a = b) then startswith p' s' else false
  | String _ _, EmptyString => false
  end.

(** [s.split(sep)] for a one-character separator: never the empty list. *)
Fixpoint split (sep : ascii) (s : string) : list string :=
  match s with
  | EmptyString => [EmptyString]
  | String c s' =>
      if decide (c = sep) then EmptyString :: split sep s'
      else match split sep s' with
           | h :: t => String c h :: t
           | [] => [String c EmptyString]
           end
  end.

(** [sep.join(parts)] *)
Fixpoint join (sep : string) (parts : list string) : string :=
  match parts with
  | [] => EmptyString
  | [p] => p
  | p :: rest => p +:+ sep +:+ join sep rest
  end.

(** [s.replace(old, new)] for a one-character [old]. *)
Fixpoint replace (old : ascii) (new : string) (s : string) : string :=
  match s with
  | EmptyString => EmptyString
  | String c s' =>
      if decide (c = old) then new +:+ replace old new s'
      else String c (replace old new s')
  end.

(** [s or default]: the empty string is falsy. *)
Definition or_default (s default : string) : string :=
  match s with EmptyString => default | _ => s end.

(** ** Content renderer *)

Definition html_escape (text : string) : string :=
  replace "'"%char "&#39;"
    (replace DQUOTE "&quot;"
       (replace ">"%char "&gt;"
          (replace "<"%char "&lt;"
             (replace "&"%char "&amp;" text)))).

(** The payload of the group [.*] of the checklist patterns: the dot matches
    every character but the line feed, and the star is greedy. *)
Fixpoint dot_star (s : string) : string :=
  match s with
  | EmptyString => EmptyString
  | String c s' => if decide (c = LF) then EmptyString else String c (dot_star s')
  end.

(** Lower case of the letters A to Z, as [re.IGNORECASE] compares them; the
    literal characters of the checklist patterns have no other case
    variants. *)
Definition ascii_lower (c : ascii) : ascii :=
  let n := nat_of_ascii c in
  if (65 <=? n) && (n <=? 90) then ascii_of_nat (n + 32) else c.

(** Match a literal prefix at the start of [s], with or without
    [re.IGNORECASE]; the result is the rest of [s]. *)
Fixpoint match_literal (ignorecase : bool) (p s : string) : option string :=
  match p, s with
  | EmptyString, _ => Some s
  | String a p', String b s' =>
      if (if ignorecase then bool_decide (ascii_lower a = ascii_lower b)
          else bool_decide (a = b))
      then match_literal ignorecase p' s' else None
  | String _ _, EmptyString => None
  end.

(** [re.match] of the unchecked pattern (the literal dash, space, bracket,
    space, bracket, space, then the group), as [group(1)] when it matches. *)
Definition match_unchecked (line : string) : option string :=
  dot_star <$> match_literal false "- [ ] " line.

(** [re.match] of the checked pattern under [re.IGNORECASE], as
    [group(1)] when it matches. *)
Definition match_checked (line : string) : option string :=
  dot_star <$> match_literal true "- [x] " line.

Definition unchecked_box (task : string) : string :=
  "<label><input type=" +:+ dquote +:+ "checkbox" +:+ dquote +:+ " disabled> "
  +:+ html_escape task +:+ "</label><br>".

Definition checked_box (task : string) : string :=
  "<label><input type=" +:+ dquote +:+ "checkbox" +:+ dquote
  +:+ " checked disabled> " +:+ html_escape task +:+ "</label><br>".

Definition paragraph (line : string) : string :=
  "<p>" +:+ html_escape line +:+ "</p>".

(** [line.strip().startswith] of three backticks. *)
Definition is_fence (line : string) : bool := startswith "```" (strip line).

(** What a line that is neither a fence nor inside one appends. *)
Definition render_plain (line : string) : string :=
  match match_unchecked line with
  | Some task => unchecked_box task
  | None =>
      match match_checked line with
      | Some task => checked_box task
      | None => paragraph line
      end
  end.

(** One iteration of the loop of [render_content], on the pair of its two
    local variables [html_parts] and [in_code]. *)
Definition render_line (st : list string * bool) (line : string)
  : list string * bool :=
  let '(html_parts, in_code) := st in
  if is_fence line then
    let in_code := negb in_code in
    (html_parts ++ [if in_code then "<pre><code>" else "</code></pre>"], in_code)
  else if in_code then
    (html_parts ++ [html_escape line +:+ newline], in_code)
  else
    (html_parts ++ [render_plain line], in_code).

Definition render_lines (lines : list string) (st : list string * bool)
  : list string * bool :=
  foldl render_line st lines.

Definition render_content (raw : string) : string :=
  join newline (render_lines (split LF raw) ([], false)).1.

(** ** Pages and the workspace *)

(** One value of [DATA]: the keys [title], [content], [children] and
    [database] of a page dictionary. *)
Record page := Page {
  title : string;
  content : string;
  children : list string;
  database : list (gmap string string)
}.

Abbreviation workspace := (gmap string page).

Definition set_children (p : page) (cs : list string) : page :=
  Page (title p) (content p) cs (database p).

Definition set_text (p : page) (t c : string) : page :=
  Page t c (children p) (database p).

Definition set_database (p : page) (rows : list (gmap string string)) : page :=
  Page (title p) (content p) (children p) rows.

(** ** Exceptions and results *)

Inductive exn :=
  | KeyError (key : string)
  | UnicodeDecodeError.

(** The outcome of a call: a value, a raised exception, or recursion that
    was cut off by the fuel of the model. *)
Inductive res (A : Type) :=
  | Ret (a : A)
  | Raise (e : exn)
  | OutOfFuel.
Arguments Ret {A} a.
Arguments Raise {A} e.
Arguments OutOfFuel {A}.

Global Instance res_ret : MRet res := λ A a, Ret a.
Global Instance res_bind : MBind res := λ A B f m,
  match m with
  | Ret a => f a
  | Raise e => Raise e
  | OutOfFuel => OutOfFuel
  end.

(** ** The persisted file and the process state *)

(** [pages.json], described by what [load_data] meets when it reads it:
    no file; bytes that are not UTF-8, on which reading raises
    [UnicodeDecodeError]; text that is not JSON, on which [json.load] raises
    [JSONDecodeError]; or the JSON text of a workspace. *)
Inductive file :=
  | NoFile
  | NotUtf8
  | NotJson
  | JsonOf (data : workspace).

Record user := User {
  email : string;
  access_token : string;
  refresh_token : string
}.

Record world := World {
  DATA : workspace;
  DATA_FILE : file;
  SESSIONS : gmap string user
}.

Definition set_DATA (s : world) (data : workspace) : world :=
  World data (DATA_FILE s) (SESSIONS s).

(** [save_data(DATA)]: the file becomes the JSON text of [DATA]. *)
Definition save_data (s : world) : world :=
  World (DATA s) (JsonOf (DATA s)) (SESSIONS s).

(** The workspace [load_data] makes up: one page titled Home. (The welcome
    text of the source has a non-breaking hyphen, a code point above 255,
    where this one has a hyphen.) *)
Definition default_workspace (root_id : string) : workspace :=
  {[ root_id := Page "Home" "Welcome to your Notion-style workspace!" [] [] ]}.

(** [load_data()], with the identifier [uuid4] would draw for the root; only
    [JSONDecodeError] is caught. *)
Definition load_data (root_id : string) (f : file) : res workspace * file :=
  match f with
  | JsonOf data => (Ret data, f)
  | NotUtf8 => (Raise UnicodeDecodeError, f)
  | NotJson | NoFile =>
      let data := default_workspace root_id in
      (Ret data, JsonOf data)
  end.

(** ** Page operations *)

(** [add_page(title, parent_id)], where [page_id] is the identifier that
    [uuid4] draws. The parent is looked up after the new page is stored. *)
Definition add_page (title : string) (parent_id : option string)
    (page_id : string) (s : world) : string * world :=
  let data := <[page_id := Page (or_default (strip title) "Untitled") "" [] []]> (DATA s) in
  let data :=
    match parent_id with
    | Some pid =>
        if bool_decide (pid = "") then data
        else match data !! pid with
             | Some p => <[pid := set_children p (children p ++ [page_id])]> data
             | None => data
             end
    | None => data
    end in
  (page_id, save_data (set_DATA s data)).

(** [update_page(page_id, title, content)] *)
Definition update_page (page_id title content : string) (s : world) : world :=
  match DATA s !! page_id with
  | Some p =>
      save_data
        (set_DATA s (<[page_id := set_text p (or_default (strip title) "Untitled") content]> (DATA s)))
  | None => s
  end.

(** [l.remove(x)] guarded by [x in l]: the first occurrence goes. *)
Fixpoint remove_first (x : string) (l : list string) : list string :=
  match l with
  | [] => []
  | y :: l' => if decide (x = y) then l' else y :: remove_first x l'
  end.

(** The body of the loop over [DATA.items()] in [delete_page]. *)
Definition scrub (page_id : string) (p : page) : page :=
  set_children p (remove_first page_id (children p)).

(** [delete_page(page_id)] *)
Fixpoint delete_page (fuel : nat) (page_id : string) (s : world) : res world :=
  match fuel with
  | 0 => OutOfFuel
  | S fuel =>
      match DATA s !! page_id with
      | None => Ret s
      | Some p =>
          s ← foldl (λ acc child_id, acc ≫= delete_page fuel child_id)
                (Ret s) (children p);
          Ret (save_data (set_DATA s (delete page_id (scrub page_id <$> DATA s))))
      end
  end.

(** ** The page tree *)

Inductive node := Node {
  node_id : string;
  node_title : string;
  node_children : list node
}.

(** Every identifier of a tree, the root first. *)
Fixpoint node_ids (n : node) : list string :=
  node_id n :: (fix go (ns : list node) : list string :=
                  match ns with
                  | [] => []
                  | m :: ns' => node_ids m ++ go ns'
                  end) (node_children n).

(** The inner function [build_node(pid)] of [get_page_tree]. *)
Fixpoint build_node (fuel : nat) (data : workspace) (pid : string) : res node :=
  match fuel with
  | 0 => OutOfFuel
  | S fuel =>
      match data !! pid with
      | None => Raise (KeyError pid)
      | Some p =>
          cs ← mapM (build_node fuel data) (children p);
          Ret (Node pid (title p) cs)
      end
  end.

Definition all_children (data : workspace) : gset string :=
  list_to_set (map_to_list data ≫= (λ kv, children kv.2)).

Definition root_ids (data : workspace) : list string :=
  filter (λ pid, pid ∉ all_children data) (map_to_list data).*1.

(** [get_page_tree()] *)
Definition get_page_tree (fuel : nat) (s : world) : res (list node) :=
  mapM (build_node fuel (DATA s)) (root_ids (DATA s)).

(** ** The row handler *)

(** What the handlers read of a request: the [session_id] cookie, the path,
    and the form that [parse_qs] makes of the body, a dictionary from field
    name to the list of its values, which [parse_qs] never leaves empty: a
    first value and the rest. *)
Record request := Request {
  cookie_session_id : option string;
  url_path : string;
  form : gmap string (string * list string)
}.

Inductive response :=
  | RedirectResponse (url : string) (status_code : nat).

Definition get_current_user (r : request) (s : world) : option user :=
  match cookie_session_id r with
  | Some session_id =>
      if bool_decide (session_id = "") then None else SESSIONS s !! session_id
  | None => None
  end.

Definition require_login (r : request) (s : world) : option response :=
  match get_current_user r s with
  | None => Some (RedirectResponse ("/login?next=" +:+ url_path r) 302)
  | Some _ => None
  end.

(** [form.get(key, [default])[0]] *)
Definition form_first (f : gmap string (string * list string))
    (key default : string) : string :=
  match f !! key with
  | Some values => values.1
  | None => default
  end.

(** The row that [add_db_row] builds from the form. *)
Definition build_row (f : gmap string (string * list string)) : gmap string string :=
  let new_col := strip (form_first f "new_col" "") in
  let new_val := strip (form_first f "new_val" "") in
  let row :=
    map_imap (λ key (values : string * list string),
      if bool_decide (key = "new_col" ∨ key = "new_val") then None
      else let value := strip values.1 in
           if bool_decide (value = "") then None else Some value) f in
  if bool_decide (new_col = "") then row else <[new_col := new_val]> row.

(** The handler [add_db_row(request, page_id)]. *)
Definition add_db_row (r : request) (page_id : string) (s : world)
  : response * world :=
  match require_login r s with
  | Some resp => (resp, s)
  | None =>
      match DATA s !! page_id with
      | None => (RedirectResponse "/" 302, s)
      | Some p =>
          let row := build_row (form r) in
          let data := <[page_id := set_database p (database p ++ [row])]> (DATA s) in
          (RedirectResponse ("/page/" +:+ page_id +:+ "/database") 302,
           save_data (set_DATA s data))
      end
  end.

(** The handler [delete_page_route(request, page_id)]. *)
Definition delete_page_route (fuel : nat) (r : request) (page_id : string)
    (s : world) : res (response * world) :=
  match require_login r s with
  | Some resp => Ret (resp, s)
  | None =>
      s ← delete_page fuel page_id s;
      Ret (RedirectResponse "/" 302, s)
  end.

(** ** Well-formed workspaces *)

(** [y] is listed in the [children] of the page stored under [x]. *)
Definition child (data : workspace) (x y : string) : Prop :=
  ∃ p, data !! x = Some p ∧ y ∈ children p.

(** [y] is [x] or a descendant of [x]. *)
Definition reach (data : workspace) : relation string := rtc (child data).

Definition no_dangling (data : workspace) : Prop :=
  map_Forall (λ _ p, Forall (λ c, is_Some (data !! c)) (children p)) data.

Definition acyclic (data : workspace) : Prop :=
  ∀ x, ¬ tc (child data) x x.

Definition no_duplicates (data : workspace) : Prop :=
  map_Forall (λ _ p, NoDup (children p)) data.

Definition well_formed (data : workspace) : Prop :=
  no_dangling data ∧ acyclic data ∧ no_duplicates data.

(** A page with the identifiers of [D] taken out of its children, and a
    workspace with the pages of [D] and every mention of them taken out: what
    a deletion is to leave. *)
Definition prune (D : gset string) (p : page) : page :=
  set_children p (filter (.∉ D) (children p)).

Definition without (D : gset string) (data : workspace) : workspace :=
  prune D <$> filter (λ kv, kv.1 ∉ D) data.

(** [deleted s x D]: [D] holds the pages that the deletion of [x] takes
    out of [s]: none when [x] is no key, else [x] and its descendants. *)
Definition deleted (s : world) (x : string) (D : gset string) : Prop :=
  ∀ y, y ∈ D ↔ is_Some (DATA s !! x) ∧ reach (DATA s) x y.

(** A root: a key that no page lists. *)
Definition is_root (data : workspace) (r : string) : Prop :=
  is_Some (data !! r) ∧ ∀ x, ¬ child data x r.

(** ** Sequences of operations *)

Inductive op :=
  | AddPage (title : string) (parent_id : option string) (page_id : string)
  | DeletePage (page_id : string).

(** What is assumed of an identifier drawn by [uuid4]: it is not in use, and
    it is not the identifier the caller passed as the parent. *)
Definition fresh (data : workspace) (parent_id : option string)
    (page_id : string) : Prop :=
  data !! page_id = None ∧ parent_id ≠ Some page_id.

(** [run s ops states]: the operations [ops], applied from [s] in order,
    return normally and leave the states [states], one after each. *)
Inductive run : world → list op → list world → Prop :=
  | run_nil s : run s [] []
  | run_add s t parent_id page_id ops states :
      fresh (DATA s) parent_id page_id →
      run (add_page t parent_id page_id s).2 ops states →
      run s (AddPage t parent_id page_id :: ops)
        ((add_page t parent_id page_id s).2 :: states)
  | run_delete s fuel page_id s' ops states :
      delete_page fuel page_id s = Ret s' →
      run s' ops states →
      run s (DeletePage page_id :: ops) (s' :: states).

(** ** Example data *)

Definition home : page := Page "Home" "" [] [].

Definition world0 : world := World {[ "root" := home ]} NoFile ∅.

(** A parent that lists the same child twice. *)
Definition twice : workspace :=
  {[ "p" := Page "P" "" ["x"; "x"] []; "x" := Page "X" "" [] [] ]}.

(** A root with two children, the first of which has a child. *)
Definition family : workspace :=
  {[ "root" := Page "Home" "" ["a"; "c"] [];
     "a" := Page "A" "text" ["b"] [ {[ "Status" := "Done" ]} ];
     "b" := Page "B" "" [] [];
     "c" := Page "C" "" [] [] ]}.

Definition family_rank (x : string) : nat :=
  if decide (x = "root") then 2 else if decide (x = "a") then 1 else 0.


Definition signed_in : gmap string user := {[ "sid" := User "dana@example.org" "at" "rt" ]}.

(** The single-root workspace with one session open. *)
Definition world1 : world := World {[ "root" := home ]} NoFile signed_in.

(** A row form posted with the cookie of that session. *)
Definition post (f : gmap string (string * list string)) : request :=
  Request (Some "sid") "/page/root/database/add" f.

(** What the specification asks of a row-add on an unknown page: an answer
    that signals an error, a status of the 4xx or 5xx class. *)
Definition signals_error (resp : response) : Prop :=
  match resp with RedirectResponse _ status_code => 400 ≤ status_code end.

(** ** The rendering of a line, in the words of the specification *)

(** [renders_as line html]: a line that begins with an unchecked or a checked
    checklist marker renders as a disabled checkbox labelled with the rest of
    the line, and every other line as a paragraph. *)
Inductive renders_as : string → string → Prop :=
  | as_unchecked text :
      renders_as ("- [ ] " +:+ text) (unchecked_box text)
  | as_checked_lower text :
      renders_as ("- [x] " +:+ text) (checked_box text)
  | as_checked_upper text :
      renders_as ("- [X] " +:+ text) (checked_box text)
  | as_paragraph line :
      startswith "- [ ] " line = false →
      startswith "- [x] " line = false →
      startswith "- [X] " line = false →
      renders_as line (paragraph line).

(** The content of the fourth example of the specification: a fence, the
    line [<b>], a fence. *)
Definition fenced_b : string :=
  "```" +:+ newline +:+ "<b>" +:+ newline +:+ "```".

(** A text with a paragraph, a fenced block that holds a checklist line, a
    checklist line after the block, and a blank last line. *)
Definition mixed_text : string :=
  "a & b" +:+ newline +:+ "```py" +:+ newline +:+ "- [ ] in" +:+ newline
  +:+ "```" +:+ newline +:+ "- [X] out" +:+ newline.

(** * Further functions of [app.py] *)

(** ** Escaping, one character at a time *)

(** What [html_escape] makes of one character. *)
Definition escape_char (c : ascii) : string :=
  if decide (c = "&"%char) then "&amp;"
  else if decide (c = "<"%char) then "&lt;"
  else if decide (c = ">"%char) then "&gt;"
  else if decide (c = DQUOTE) then "&quot;"
  else if decide (c = "'"%char) then "&#39;"
  else String c "".

(** [c in s] for a character. *)
Fixpoint occurs (c : ascii) (s : string) : bool :=
  match s with
  | EmptyString => false
  | String b s' => bool_decide (b = c) || occurs c s'
  end.

(** ** Search *)

(** [str.lower] on text whose code points are all below 256, the strings of
    this model: the letters A to Z and the accented capitals (192 to 222 but
    the multiplication sign) move up by 32. On such text [str.lower] lowers
    each character on its own and keeps the length. Beyond these code points
    it does not (a capital sigma is lowered by its place in the word, and a
    dotted capital I becomes two code points): such text is outside the
    model, and nothing below speaks of it. *)
Definition chr_lower (c : ascii) : ascii :=
  let n := nat_of_ascii c in
  if ((65 <=? n) && (n <=? 90))
     || ((192 <=? n) && (n <=? 222) && negb (n =? 215))
  then ascii_of_nat (n + 32) else c.

Fixpoint lower (s : string) : string :=
  match s with
  | EmptyString => EmptyString
  | String c s' => String (chr_lower c) (lower s')
  end.

(** [q in s] for strings. *)
Fixpoint contains (q s : string) : bool :=
  startswith q s
  || match s with
     | EmptyString => false
     | String _ s' => contains q s'
     end.

(** One result of a search: the keys [id] and [title]. *)
Record hit := Hit { hit_id : string; hit_title : string }.

(** [search_pages(query)] *)
Definition search_pages (query : string) (s : world) : list hit :=
  let q := lower query in
  (λ kv : string * page, Hit kv.1 (title kv.2))
  <$> filter (λ kv : string * page,
                contains q (lower (title kv.2)) || contains q (lower (content kv.2)))
        (map_to_list (DATA s)).

(** The [results] that the handler [search] hands to its template. *)
Definition search (q : string) (s : world) : list hit :=
  if bool_decide (q = "") then [] else search_pages q s.

(** ** The other handlers that change pages or sessions *)

(** The handler [create_page(request)], with the identifier [add_page]
    draws. *)
Definition create_page (r : request) (page_id : string) (s : world)
  : response * world :=
  match require_login r s with
  | Some resp => (resp, s)
  | None =>
      let t := form_first (form r) "title" "Untitled" in
      let parent := fst <$> form r !! "parent" in
      let '(new_id, s') := add_page t parent page_id s in
      (RedirectResponse ("/page/" +:+ new_id) 302, s')
  end.

(** The handler [edit_page(request, page_id)]. *)
Definition edit_page (r : request) (page_id : string) (s : world)
  : response * world :=
  match require_login r s with
  | Some resp => (resp, s)
  | None =>
      let t := form_first (form r) "title" "Untitled" in
      let c := form_first (form r) "content" "" in
      (RedirectResponse ("/page/" +:+ page_id) 302, update_page page_id t c s)
  end.

(** The handler [logout(request)]: the response, the name of the cookie it
    deletes on the response, and the state. *)
Definition logout (r : request) (s : world) : response * string * world :=
  let s' :=
    match cookie_session_id r with
    | Some session_id =>
        if bool_decide (session_id = "") then s
        else match SESSIONS s !! session_id with
             | Some _ => World (DATA s) (DATA_FILE s) (delete session_id (SESSIONS s))
             | None => s
             end
    | None => s
    end in
  (RedirectResponse "/login" 302, "session_id", s').

(** ** Settings and the assistant *)

(** [settings.json], described as [pages.json] is. *)
Inductive settings_file :=
  | NoSettings
  | SettingsNotUtf8
  | SettingsNotJson
  | SettingsJson (settings : gmap string string).

(** The globals [SETTINGS], [SELECTED_MODEL], [SELECTED_THEME] and
    [CHAT_HISTORY], and the settings file. An entry of the history is its
    role and its text. *)
Record prefs := Prefs {
  SETTINGS : gmap string string;
  SELECTED_MODEL : string;
  SELECTED_THEME : string;
  SETTINGS_FILE : settings_file;
  CHAT_HISTORY : list (string * string)
}.

(** [save_settings(SETTINGS)] *)
Definition save_settings (p : prefs) : prefs :=
  Prefs (SETTINGS p) (SELECTED_MODEL p) (SELECTED_THEME p)
    (SettingsJson (SETTINGS p)) (CHAT_HISTORY p).

(** The handler [toggle_theme(request)], with the [referer] header of the
    request. It asks for no session. *)
Definition toggle_theme (referer : option string) (p : prefs) : response * prefs :=
  let theme := if bool_decide (SELECTED_THEME p = "light") then "dark" else "light" in
  let p := Prefs (<["theme" := theme]> (SETTINGS p)) (SELECTED_MODEL p) theme
             (SETTINGS_FILE p) (CHAT_HISTORY p) in
  (RedirectResponse (or_default (default "" referer) "/") 302, save_settings p).

(** The handler [update_settings(request)]. *)
Definition update_settings (r : request) (s : world) (p : prefs) : response * prefs :=
  match require_login r s with
  | Some resp => (resp, p)
  | None =>
      let p :=
        match fst <$> form r !! "model" with
        | Some model =>
            if bool_decide (model = "") then p
            else save_settings
                   (Prefs (<["model" := model]> (SETTINGS p)) model (SELECTED_THEME p)
                      (SETTINGS_FILE p) (CHAT_HISTORY p))
        | None => p
        end in
      (RedirectResponse "/settings" 302, p)
  end.

(** [call_ai_model(model, prompt)] *)
Definition call_ai_model (model : option string) (prompt : string) (p : prefs) : string :=
  let chosen := or_default (default "" model) (SELECTED_MODEL p) in
  "[Model: " +:+ chosen +:+ "] You said: " +:+ prompt.

(** The handler [ai_chat_post(request)]. *)
Definition ai_chat_post (r : request) (s : world) (p : prefs) : response * prefs :=
  match require_login r s with
  | Some resp => (resp, p)
  | None =>
      let model := form_first (form r) "model" "" in
      let message := form_first (form r) "message" "" in
      let response_text := call_ai_model (Some model) message p in
      (RedirectResponse "/ai" 302,
       Prefs (SETTINGS p) (SELECTED_MODEL p) (SELECTED_THEME p) (SETTINGS_FILE p)
         (CHAT_HISTORY p ++ [("user", message); ("assistant", response_text)]))
  end.

(** ** Properties of states and trees used below *)

(** Every page has a title. *)
Definition titled (data : workspace) : Prop :=
  map_Forall (λ _ p, title p ≠ "") data.

(** The file holds the workspace that is in memory. *)
Definition synced (s : world) : Prop := DATA_FILE s = JsonOf (DATA s).

(** [s'] has no page and no child that [s] has not, and the pages it has
    carry the title, content and rows they have in [s]. *)
Definition shrinks (s s' : world) : Prop :=
  SESSIONS s' = SESSIONS s
  ∧ ∀ y p', DATA s' !! y = Some p' →
      ∃ p, DATA s !! y = Some p
           ∧ title p' = title p ∧ content p' = content p
           ∧ database p' = database p
           ∧ children p' `sublist_of` children p.

(** A tree mirrors the workspace: each node carries the title of its page,
    and its children are the children of the page, in order. *)
Fixpoint mirrors (data : workspace) (n : node) : Prop :=
  match data !! node_id n with
  | Some p => node_title n = title p ∧ node_id <$> node_children n = children p
  | None => False
  end
  ∧ (fix go (ns : list node) : Prop :=
       match ns with
       | [] => True
       | m :: ns' => mirrors data m ∧ go ns'
       end) (node_children n).

(** [explores data x r]: [r] is what building the tree of [x] comes to: a
    value when everything that [x] reaches is a key, and else the [KeyError]
    of an identifier that [x] reaches and that is no key. *)
Definition explores {A} (data : workspace) (x : string) (r : res A) : Prop :=
  match r with
  | Ret _ => ∀ y, reach data x y → is_Some (data !! y)
  | Raise (KeyError k) => reach data x k ∧ data !! k = None
  | _ => False
  end.

(** The start-up state with a theme the application does not know. *)
Definition prefs_blue : prefs :=
  Prefs {[ "theme" := "blue" ]} "Gemini" "blue" (SettingsJson {[ "theme" := "blue" ]}) [].

(** A workspace with a dangling child under the second root. *)
Definition torn : workspace :=
  {[ "a" := Page "A" "" [] []; "b" := Page "B" "" ["c"] [];
     "c" := Page "C" "" ["gone"] [] ]}.

Definition torn_rank (x : string) : nat :=
  if decide (x = "b") then 2 else if decide (x = "c") then 1 else 0.

(** * Properties of the renderer *)

Section renderer.

Implicit Types (line raw : string) (lines html_parts : list string).

Lemma render_lines_app lines1 lines2 st :
  render_lines (lines1 ++ lines2) st = render_lines lines2 (render_lines lines1 st).
Proof. unfold render_lines. apply foldl_app. Qed.

(** The state variable after one line. *)
Lemma render_line_in_code html_parts in_code line :
  (render_line (html_parts, in_code) line).2 = xorb in_code (is_fence line).
Proof.
  unfold render_line. destruct (is_fence line), in_code; reflexivity.
Qed.

(** Lines inside a fence. *)
Lemma render_lines_code lines html_parts :
  Forall (λ line, is_fence line = false) lines →
  render_lines lines (html_parts, true)
  = (html_parts ++ ((λ line, html_escape line +:+ newline) <$> lines), true).
Proof.
  intros Hlines. revert html_parts.
  induction Hlines as [|line lines Hline _ IH]; intros html_parts; simpl.
  - by rewrite app_nil_r.
  - unfold render_lines in *. simpl. rewrite Hline, IH.
    by rewrite <- app_assoc.
Qed.

(** Lines outside a fence. *)
Lemma render_lines_plain lines html_parts :
  Forall (λ line, is_fence line = false) lines →
  render_lines lines (html_parts, false)
  = (html_parts ++ (render_plain <$> lines), false).
Proof.
  intros Hlines. revert html_parts.
  induction Hlines as [|line lines Hline _ IH]; intros html_parts; simpl.
  - by rewrite app_nil_r.
  - unfold render_lines in *. simpl. rewrite Hline, IH.
    by rewrite <- app_assoc.
Qed.

Lemma split_nonempty sep raw : split sep raw ≠ [].
Proof. destruct raw as [|c raw]; simpl; [done|]. case_decide; [done|]. by destruct (split sep raw). Qed.

(** No line of [split] holds the separator. *)
Lemma split_dot_star raw : Forall (λ line, dot_star line = line) (split LF raw).
Proof.
  induction raw as [|c raw IH]; simpl.
  - by constructor.
  - case_decide as Hc.
    + by constructor.
    + destruct (split LF raw) as [|h t]; simpl.
      * constructor; [|done]. simpl. by rewrite decide_False.
      * inversion_clear IH as [|?? Hh Ht]. constructor; [|done].
        simpl. rewrite decide_False by done. by rewrite Hh.
Qed.

Lemma match_literal_Some p s rest :
  match_literal false p s = Some rest → s = p +:+ rest.
Proof.
  revert s. induction p as [|a p IH]; intros [|b s]; simpl; intros H;
    simplify_eq/=; try done.
  case_bool_decide; [|done]. apply IH in H. by subst.
Qed.

Lemma match_literal_None p s :
  match_literal false p s = None → startswith p s = false.
Proof.
  revert s. induction p as [|a p IH]; intros [|b s]; simpl; try done.
  case_bool_decide; case_decide; try done. apply IH.
Qed.

Lemma lower_eq_plain (a b : ascii) :
  a ∈ ["-"; " "; "["; "]"]%char → ascii_lower a = ascii_lower b → b = a.
Proof.
  intros Ha. repeat (apply elem_of_cons in Ha as [->|Ha]);
    [..|by apply elem_of_nil in Ha];
    destruct b as [[] [] [] [] [] [] [] []]; by vm_compute.
Qed.

Lemma lower_eq_x (b : ascii) :
  ascii_lower "x" = ascii_lower b → b = "x"%char ∨ b = "X"%char.
Proof. destruct b as [[] [] [] [] [] [] [] []]; vm_compute; (by left) || (by right) || done. Qed.

Lemma startswith_inv p s : startswith p s = true → ∃ rest, s = p +:+ rest.
Proof.
  revert s. induction p as [|a p IH]; intros [|b s]; simpl; try done.
  - by exists "".
  - by exists (String b s).
  - case_decide; [|done]. intros [rest ->]%IH. subst. by exists rest.
Qed.

Lemma match_literal_cons a p s rest :
  match_literal true (String a p) s = Some rest →
  ∃ b s', s = String b s' ∧ ascii_lower a = ascii_lower b
          ∧ match_literal true p s' = Some rest.
Proof.
  destruct s as [|b s']; simpl; [done|].
  case_bool_decide; [|done]. intros Hrest. by exists b, s'.
Qed.

Lemma match_checked_Some line rest :
  match_literal true "- [x] " line = Some rest →
  line = "- [x] " +:+ rest ∨ line = "- [X] " +:+ rest.
Proof.
  intros Hm.
  do 6 (apply match_literal_cons in Hm as (? & ? & -> & ? & Hm)).
  simpl in Hm. simplify_eq.
  repeat match goal with
  | H : ascii_lower "x" = ascii_lower _ |- _ => apply lower_eq_x in H
  | H : ascii_lower _ = ascii_lower _ |- _ =>
      apply lower_eq_plain in H; [|set_solver]
  end.
  subst. naive_solver.
Qed.

Lemma match_checked_None line :
  match_literal true "- [x] " line = None →
  startswith "- [x] " line = false ∧ startswith "- [X] " line = false.
Proof.
  intros Hnone. split.
  - destruct (startswith "- [x] " line) eqn:E; [|done].
    apply startswith_inv in E as [rest ->]. done.
  - destruct (startswith "- [X] " line) eqn:E; [|done].
    apply startswith_inv in E as [rest ->]. done.
Qed.

Lemma dot_star_suffix p rest :
  dot_star (p +:+ rest) = p +:+ rest → dot_star rest = rest.
Proof.
  induction p as [|a p IH]; simpl; [done|].
  case_decide; [done|]. intros [= Hrest]. by apply IH.
Qed.

(** Outside a fence the loop body renders a line as the specification
    words it. *)
Lemma render_plain_spec line :
  dot_star line = line → renders_as line (render_plain line).
Proof.
  intros Hline. unfold render_plain, match_unchecked, match_checked.
  destruct (match_literal false "- [ ] " line) as [rest|] eqn:E1;
    [|destruct (match_literal true "- [x] " line) as [rest|] eqn:E2];
    cbn [fmap option_fmap option_map].
  - apply match_literal_Some in E1 as ->.
    rewrite (dot_star_suffix _ _ Hline). constructor.
  - apply match_checked_Some in E2 as [-> | ->];
      rewrite (dot_star_suffix _ _ Hline); constructor.
  - apply match_literal_None in E1.
    apply match_checked_None in E2 as [??]. by constructor.
Qed.

Lemma render_lines_in_code lines html_parts in_code :
  (render_lines lines (html_parts, in_code)).2
  = xorb in_code (Nat.odd (length (filter (λ line, is_fence line = true) lines))).
Proof.
  revert html_parts in_code.
  induction lines as [|line lines IH]; intros html_parts in_code.
  - by destruct in_code.
  - change (render_lines (line :: lines) (html_parts, in_code))
      with (render_lines lines (render_line (html_parts, in_code) line)).
    destruct (render_line (html_parts, in_code) line) as [parts b] eqn:E.
    rewrite IH. replace b with (render_line (html_parts, in_code) line).2
      by by rewrite E.
    rewrite render_line_in_code, filter_cons.
    destruct (is_fence line); case_decide; try done; simpl length.
    + rewrite Nat.odd_succ, <- Nat.negb_odd.
      by destruct in_code, (Nat.odd _).
    + by destruct in_code.
Qed.

(** C9, as the code has it: the state [in_code] after any lines is the
    starting state flipped once for every line whose trimmed text begins with
    three backticks, whatever follows them on the line; and a run of lines
    between two such lines is rendered as the opening marker, each line
    escaped and followed by a line feed, and the closing marker: the two fence
    lines leave only the markers, and no line between them is read as a
    checklist item or a paragraph. *)
Theorem fence_lines_toggle_code lines in_code html_parts opening body closing :
  is_fence opening = true →
  is_fence closing = true →
  Forall (λ line, is_fence line = false) body →
  (render_lines lines (html_parts, in_code)).2
  = xorb in_code (Nat.odd (length (filter (λ line, is_fence line = true) lines)))
  ∧ render_lines (opening :: body ++ [closing]) (html_parts, false)
    = (html_parts ++ "<pre><code>"
         :: ((λ line, html_escape line +:+ newline) <$> body)
         ++ ["</code></pre>"], false).
Proof.
  intros Hopen Hclose Hbody. split; [apply render_lines_in_code|].
  change (render_lines (opening :: body ++ [closing]) (html_parts, false))
    with (render_lines (body ++ [closing]) (render_line (html_parts, false) opening)).
  unfold render_line at 1. rewrite Hopen. simpl negb. cbv iota.
  rewrite render_lines_app, render_lines_code by done.
  unfold render_lines, render_line. simpl. rewrite Hclose. simpl.
  by rewrite <- !app_assoc.
Qed.

Lemma fence_lines_toggle_code_witness :
  (render_lines ["a"; "```py"; "b"] (["<p>t</p>"], true)).2 = false
  ∧ render_lines ["```py"; "- [ ] a"; "<b>"; "  ```"] (["<p>t</p>"], false)
    = (["<p>t</p>"; "<pre><code>"; "- [ ] a" +:+ newline;
        "&lt;b&gt;" +:+ newline; "</code></pre>"], false).
Proof.
  apply (fence_lines_toggle_code ["a"; "```py"; "b"] true ["<p>t</p>"] "```py"
           ["- [ ] a"; "<b>"] "  ```");
    [reflexivity | reflexivity | repeat constructor].
Defined.

(** C9 as stated fails: a line that holds more than the fence toggles the
    state too, and the checklist line after it is rendered as code. *)
Lemma fence_with_text_toggles :
  "```py" ≠ "```"
  ∧ (render_line ([], false) "```py").2 = true
  ∧ render_content ("```py" +:+ newline +:+ "- [ ] a")
    = "<pre><code>" +:+ newline +:+ "- [ ] a" +:+ newline.
Proof. split; [done|]. split; reflexivity. Qed.

Lemma render_line_part html_parts in_code line :
  ∃ html,
    render_line (html_parts, in_code) line
    = (html_parts ++ [html], xorb in_code (is_fence line))
    ∧ (in_code = false → is_fence line = false → html = render_plain line).
Proof.
  unfold render_line. destruct (is_fence line), in_code; eexists; by split.
Qed.

(** Every line leaves one part, and a line met outside a fence that is no
    fence line leaves what [render_plain] makes of it. *)
Lemma render_lines_index lines html_parts in_code :
  ∃ parts,
    (render_lines lines (html_parts, in_code)).1 = html_parts ++ parts
    ∧ length parts = length lines
    ∧ ∀ i line,
        lines !! i = Some line →
        (render_lines (take i lines) (html_parts, in_code)).2 = false →
        is_fence line = false →
        parts !! i = Some (render_plain line).
Proof.
  revert html_parts in_code.
  induction lines as [|line0 lines IH]; intros html_parts in_code.
  { exists []. rewrite app_nil_r. by repeat split. }
  destruct (render_line_part html_parts in_code line0) as (html & Hline0 & Hplain).
  destruct (IH (html_parts ++ [html]) (xorb in_code (is_fence line0)))
    as (parts & Hparts & Hlen & Hidx).
  exists (html :: parts). split; [|split].
  - change (render_lines (line0 :: lines) (html_parts, in_code))
      with (render_lines lines (render_line (html_parts, in_code) line0)).
    by rewrite Hline0, Hparts, <- app_assoc.
  - simpl. by rewrite Hlen.
  - intros [|i] line Hi Hstate Hfence.
    + simpl in Hi, Hstate. injection Hi as ->. by rewrite (Hplain Hstate Hfence).
    + simpl in Hi. simpl. apply Hidx; [done| |done].
      change (take (S i) (line0 :: lines)) with (line0 :: take i lines) in Hstate.
      change (render_lines (line0 :: take i lines) (html_parts, in_code))
        with (render_lines (take i lines) (render_line (html_parts, in_code) line0))
        in Hstate.
      by rewrite Hline0 in Hstate.
Qed.

(** C10, as the code has it: the text is rendered line by line, one part for
    each line, the parts joined by line feeds. A line that is outside a
    fence (an even number of the lines before it begin, once trimmed, with
    three backticks) and does not itself begin, once trimmed, with three
    backticks is rendered on its own: a checklist line as a disabled checkbox
    labelled with the escaped rest of the line, and every other such line (a
    blank one too) as a paragraph of the escaped line. The four examples of
    the specification render as it says. *)
Theorem render_outside_fence raw :
  (∃ html_parts,
      render_content raw = join newline html_parts
      ∧ length html_parts = length (split LF raw)
      ∧ ∀ i line,
          split LF raw !! i = Some line →
          Nat.odd (length (filter (λ line, is_fence line = true)
                             (take i (split LF raw)))) = false →
          is_fence line = false →
          ∃ html, html_parts !! i = Some html ∧ renders_as line html)
  ∧ render_content "- [ ] buy milk"
    = "<label><input type=" +:+ dquote +:+ "checkbox" +:+ dquote
      +:+ " disabled> buy milk</label><br>"
  ∧ render_content "- [x] done"
    = "<label><input type=" +:+ dquote +:+ "checkbox" +:+ dquote
      +:+ " checked disabled> done</label><br>"
  ∧ render_content "plain text" = "<p>plain text</p>"
  ∧ render_content fenced_b
    = "<pre><code>" +:+ newline +:+ "&lt;b&gt;" +:+ newline +:+ newline
      +:+ "</code></pre>".
Proof.
  split; [|by repeat split].
  destruct (render_lines_index (split LF raw) [] false) as (parts & Hparts & Hlen & Hidx).
  exists parts. split; [|split; [done|]].
  - unfold render_content. by rewrite Hparts.
  - intros i line Hi Heven Hfence. exists (render_plain line). split.
    + apply Hidx; [done| |done]. by rewrite render_lines_in_code.
    + apply render_plain_spec.
      by apply (Forall_lookup_1 _ _ _ _ (split_dot_star raw) Hi).
Qed.

Lemma render_outside_fence_witness :
  (∃ html_parts,
      render_content mixed_text = join newline html_parts
      ∧ length html_parts = length (split LF mixed_text)
      ∧ ∀ i line,
          split LF mixed_text !! i = Some line →
          Nat.odd (length (filter (λ line, is_fence line = true)
                             (take i (split LF mixed_text)))) = false →
          is_fence line = false →
          ∃ html, html_parts !! i = Some html ∧ renders_as line html)
  ∧ render_content "- [ ] buy milk" = unchecked_box "buy milk"
  ∧ render_content "- [x] done" = checked_box "done"
  ∧ render_content "plain text" = "<p>plain text</p>"
  ∧ render_content fenced_b
    = "<pre><code>" +:+ newline +:+ "&lt;b&gt;" +:+ newline +:+ newline
      +:+ "</code></pre>".
Proof. exact (render_outside_fence mixed_text). Defined.

(** In the mixed text the lines before and after the fenced block are
    rendered as a paragraph and as a checkbox, and the line inside it as
    code. *)
Example render_content_mixed_text :
  render_content mixed_text
  = join newline
      ["<p>a &amp; b</p>"; "<pre><code>"; "- [ ] in" +:+ newline; "</code></pre>";
       checked_box "out"; "<p></p>"].
Proof. by vm_compute. Qed.

(** C10 as stated fails: outside a fence, a line that is no checklist item
    and begins with three backticks is not rendered as a paragraph. *)
Lemma other_line_not_paragraph :
  match_unchecked "```py" = None
  ∧ match_checked "```py" = None
  ∧ render_content "```py" = "<pre><code>"
  ∧ render_content "```py" ≠ paragraph "```py".
Proof. by repeat split. Qed.

End renderer.

(** * Properties of the page operations *)

Section operations.

Implicit Types (s : world) (data : workspace) (p : page).
Implicit Types (page_id pid : string) (parent_id : option string).

(** ** Loading *)

Lemma load_data_recovers root_id f :
  f = NoFile ∨ f = NotJson →
  load_data root_id f
  = (Ret (default_workspace root_id), JsonOf (default_workspace root_id)).
Proof. by intros [-> | ->]. Qed.

Lemma load_data_parsed root_id data :
  load_data root_id (JsonOf data) = (Ret data, JsonOf data).
Proof. done. Qed.

(** C5 fails on a file that is not UTF-8: the exception that reading raises is
    not the one [load_data] catches, so it leaves the function, and no
    workspace is made up or written. *)
Theorem load_data_not_utf8_raises root_id :
  load_data root_id NotUtf8 = (Raise UnicodeDecodeError, NotUtf8).
Proof. reflexivity. Qed.

(** ** Unknown identifiers *)

(** C6: on an identifier that is not a key, [update_page] and [delete_page]
    return normally and leave the whole state as it was, the workspace and the
    persisted file alike. *)
Theorem unknown_id_is_noop s page_id t c fuel :
  DATA s !! page_id = None →
  update_page page_id t c s = s
  ∧ delete_page (S fuel) page_id s = Ret s.
Proof. intros Hnone. unfold update_page. simpl. by rewrite Hnone. Qed.

Lemma unknown_id_is_noop_witness :
  update_page "nope" "T" "text" world0 = world0
  ∧ delete_page 1 "nope" world0 = Ret world0.
Proof. apply (unknown_id_is_noop world0 "nope" "T" "text" 0). reflexivity. Defined.

(** ** Rows *)

(** C7, as the code has it: a row-add on an unknown page changes nothing and
    answers with a redirect: to the home page for a caller with a session, to
    the login page for one without. *)
Theorem add_db_row_unknown_page r page_id s :
  DATA s !! page_id = None →
  add_db_row r page_id s
  = (match require_login r s with
     | Some resp => resp
     | None => RedirectResponse "/" 302
     end, s).
Proof.
  intros Hnone. unfold add_db_row.
  destruct (require_login r s); [done|]. by rewrite Hnone.
Qed.

Lemma add_db_row_unknown_page_witness :
  add_db_row (post {[ "Status" := ("Done", []) ]}) "nope" world1
  = (RedirectResponse "/" 302, world1).
Proof.
  apply (add_db_row_unknown_page (post {[ "Status" := ("Done", []) ]}) "nope" world1).
  reflexivity.
Defined.

(** C7 as stated fails: the answer on an unknown page is the redirect that
    the delete handler gives on its silent unknown-identifier path, and it
    signals no error. *)
Lemma add_db_row_unknown_page_no_error :
  add_db_row (post {[ "Status" := ("Done", []) ]}) "nope" world1
  = (RedirectResponse "/" 302, world1)
  ∧ delete_page_route 1 (post ∅) "nope" world1
    = Ret (RedirectResponse "/" 302, world1)
  ∧ ¬ signals_error (add_db_row (post {[ "Status" := ("Done", []) ]}) "nope" world1).1.
Proof. split; [done|]. split; [done|]. vm_compute. lia. Qed.





(** ** Adding a page *)




(** An unknown parent: no page is made for it, the only page stays as it
    was, and the new page is a root. *)
Example add_page_unknown_parent :
  let s' := (add_page "Notes" (Some "gone") "n" world0).2 in
  DATA s' !! "gone" = None
  ∧ DATA s' !! "root" = Some home
  ∧ DATA s' !! "n" = Some (Page "Notes" "" [] []).
Proof. by vm_compute. Qed.


End operations.

(** * Deletion *)

Section deletion.

Implicit Types (s : world) (data : workspace) (p : page) (D : gset string).
Implicit Types (x y c : string) (cs : list string).

(** ** The workspace without a set of pages *)

Lemma without_lookup D data y :
  without D data !! y = if decide (y ∈ D) then None else prune D <$> data !! y.
Proof.
  unfold without. rewrite lookup_fmap, map_lookup_filter.
  destruct (data !! y) as [p|]; simpl; [|by case_decide].
  case_guard; case_decide; simpl in *; done.
Qed.

Lemma filter_all (P : string → Prop) `{!∀ x, Decision (P x)} cs :
  (∀ c, c ∈ cs → P c) → filter P cs = cs.
Proof.
  induction cs as [|c cs IH]; intros Hall; [done|].
  rewrite filter_cons_True by (apply Hall; left).
  f_equal. apply IH. intros ??. apply Hall. by right.
Qed.

Lemma without_empty data : without ∅ data = data.
Proof.
  apply map_eq. intros y. rewrite without_lookup, decide_False by set_solver.
  destruct (data !! y) as [[t ct cs db]|]; simpl; [|done].
  unfold prune, set_children. simpl. rewrite filter_all; [done|set_solver].
Qed.

Lemma without_without D1 D2 data :
  without D2 (without D1 data) = without (D1 ∪ D2) data.
Proof.
  apply map_eq. intros y. rewrite !without_lookup.
  destruct (decide (y ∈ D1)), (decide (y ∈ D2));
    try (rewrite decide_True by set_solver; done).
  rewrite decide_False by set_solver.
  destruct (data !! y) as [p|]; simpl; [|done].
  unfold prune, set_children. simpl. do 2 f_equal.
  rewrite list_filter_filter. apply list_filter_iff. set_solver.
Qed.

Lemma remove_first_filter x cs :
  NoDup cs → remove_first x cs = filter (.∉ ({[x]} : gset string)) cs.
Proof.
  induction 1 as [|c cs Hc _ IH]; [done|]. simpl. case_decide as Hx.
  - subst c. rewrite filter_cons_False by set_solver.
    symmetry. apply filter_all. set_solver.
  - rewrite filter_cons_True by set_solver. by rewrite IH.
Qed.

(** The two last steps of [delete_page]: the loop over the pages, and the
    removal of the entry. *)
Lemma scrub_delete_without x data :
  no_duplicates data → delete x (scrub x <$> data) = without {[x]} data.
Proof.
  intros Hdup. apply map_eq. intros y.
  rewrite without_lookup, lookup_delete, lookup_fmap.
  destruct (decide (x = y)) as [->|Hne].
  - by rewrite decide_True by set_solver.
  - rewrite decide_False by set_solver.
    destruct (data !! y) as [p|] eqn:Hy; simpl; [|done].
    unfold scrub, prune. rewrite remove_first_filter; [done|].
    by apply (map_Forall_lookup_1 _ _ _ _ Hdup Hy).
Qed.

Lemma child_without D data a b :
  child (without D data) a b → child data a b.
Proof.
  intros (p' & Hp' & Hb). rewrite without_lookup in Hp'.
  case_decide; [done|]. destruct (data !! a) as [p|] eqn:Ha; simplify_eq/=.
  exists p. split; [done|]. by apply list_elem_of_filter in Hb as [_ ?].
Qed.

Lemma child_without_2 D data a b :
  a ∉ D → b ∉ D → child data a b → child (without D data) a b.
Proof.
  intros Ha Hb (p & Hp & Hin). exists (prune D p). split.
  - by rewrite without_lookup, decide_False, Hp.
  - simpl. by apply list_elem_of_filter.
Qed.

Lemma no_dangling_without D data :
  no_dangling data → no_dangling (without D data).
Proof.
  unfold no_dangling. rewrite !map_Forall_lookup. intros Hdata y p' Hy.
  rewrite without_lookup in Hy. case_decide; [done|].
  destruct (data !! y) as [p|] eqn:Hp; simplify_eq/=.
  apply Forall_forall. intros c [Hc Hin]%list_elem_of_filter.
  specialize (Hdata y p Hp). rewrite Forall_forall in Hdata.
  destruct (Hdata c Hin) as [q Hq].
  rewrite without_lookup, decide_False, Hq by done. by eexists.
Qed.

Lemma no_duplicates_without D data :
  no_duplicates data → no_duplicates (without D data).
Proof.
  unfold no_duplicates. rewrite !map_Forall_lookup. intros Hdata y p' Hy.
  rewrite without_lookup in Hy. case_decide; [done|].
  destruct (data !! y) as [p|] eqn:Hp; simplify_eq/=.
  apply NoDup_filter. by apply (Hdata y p).
Qed.

Lemma acyclic_sub data data' :
  (∀ a b, child data' a b → child data a b) → acyclic data → acyclic data'.
Proof.
  intros Hsub Hdata x Hx. apply (Hdata x).
  eapply (tc_congruence id); [|done]. apply Hsub.
Qed.

Lemma well_formed_without D data :
  well_formed data → well_formed (without D data).
Proof.
  intros (? & ? & ?). repeat split.
  - by apply no_dangling_without.
  - eapply acyclic_sub; [apply child_without|done].
  - by apply no_duplicates_without.
Qed.

(** ** Reachability *)

Lemma reach_key data x y :
  no_dangling data → is_Some (data !! x) → reach data x y → is_Some (data !! y).
Proof.
  intros Hdata Hx Hreach. induction Hreach as [|a b c (p & Hp & Hin) _ IH]; [done|].
  apply IH. specialize (map_Forall_lookup_1 _ _ _ _ Hdata Hp) as Hall.
  rewrite Forall_forall in Hall. by apply Hall.
Qed.

(** A path that ends outside a set closed under [child] never enters it, and
    so survives the removal of the set. *)
Lemma reach_without D data x y :
  (∀ a b, a ∈ D → child data a b → b ∈ D) →
  reach data x y → y ∉ D → (x ∉ D) ∧ reach (without D data) x y.
Proof.
  intros Hclosed Hreach Hy.
  induction Hreach as [|a b c Hab _ IH]; [by split|].
  destruct (IH Hy) as [Hb Hbc].
  assert (a ∉ D) as Ha by (intros Ha; apply Hb; by eapply Hclosed).
  split; [done|]. eapply rtc_l; [|done]. by apply child_without_2.
Qed.

Lemma acyclic_sn data x : acyclic data → sn (child data) x.
Proof.
  intros Hdata. apply tc_finite_sn; [intros y Hy; by apply (Hdata y)|].
  exists (map_to_list data ≫= (λ kv, children kv.2)). intros y Hy.
  assert (∃ z, child data z y) as (z & p & Hz & Hin).
  { clear Hdata. induction Hy; eauto. }
  apply list_elem_of_bind. exists (z, p). split; [done|].
  by apply elem_of_map_to_list.
Qed.

(** A numbering that decreases along [child] shows a workspace acyclic. *)
Lemma ranked_acyclic (rank : string → nat) data :
  map_Forall (λ x p, Forall (λ c, rank c < rank x) (children p)) data →
  acyclic data.
Proof.
  intros Hrank.
  assert (∀ x y, tc (child data) x y → rank y < rank x) as Htc.
  { assert (∀ x y, child data x y → rank y < rank x) as Hstep.
    { intros x y (p & Hp & Hin).
      specialize (map_Forall_lookup_1 _ _ _ _ Hrank Hp) as Hall.
      rewrite Forall_forall in Hall. by apply Hall. }
    induction 1 as [x y Hxy|x y z Hxy _ IH]; [by apply Hstep|].
    apply Hstep in Hxy. lia. }
  intros x Hx. apply Htc in Hx. lia.
Qed.

(** ** The loop over the children *)

Lemma foldl_bind_stuck {A B} (h : B → A → res A) (l : list B) (acc : res A) :
  (∀ a, acc ≠ Ret a) → ∀ a, foldl (λ acc b, acc ≫= h b) acc l ≠ Ret a.
Proof.
  revert acc. induction l as [|b l IH]; intros acc Hacc; [done|].
  simpl. apply IH. intros a. destruct acc; simpl; [by destruct (Hacc a0)|done..].
Qed.

Lemma foldl_bind_cons {A B} (h : B → A → res A) b (l : list B) a a2 :
  foldl (λ acc b, acc ≫= h b) (Ret a) (b :: l) = Ret a2
  ↔ ∃ a1, h b a = Ret a1 ∧ foldl (λ acc b, acc ≫= h b) (Ret a1) l = Ret a2.
Proof.
  simpl. change (Ret a ≫= h b) with (h b a).
  destruct (h b a) as [a1| |] eqn:Hh.
  - naive_solver.
  - split; [|naive_solver]. intros Hl. by apply foldl_bind_stuck in Hl.
  - split; [|naive_solver]. intros Hl. by apply foldl_bind_stuck in Hl.
Qed.

Lemma delete_page_S fuel x s :
  delete_page (S fuel) x s
  = match DATA s !! x with
    | None => Ret s
    | Some p =>
        s ← foldl (λ acc c, acc ≫= delete_page fuel c) (Ret s) (children p);
        Ret (save_data (set_DATA s (delete x (scrub x <$> DATA s))))
    end.
Proof. done. Qed.

(** More fuel does not change a result. *)
Lemma delete_page_fuel_mono fuel fuel' x s s' :
  fuel ≤ fuel' → delete_page fuel x s = Ret s' → delete_page fuel' x s = Ret s'.
Proof.
  revert fuel' x s s'. induction fuel as [|fuel IH]; intros fuel' x s s' Hle; [done|].
  destruct fuel' as [|fuel']; [lia|]. rewrite !delete_page_S.
  destruct (DATA s !! x) as [p|]; [|done].
  assert (∀ cs s0 s1,
    foldl (λ acc c, acc ≫= delete_page fuel c) (Ret s0) cs = Ret s1 →
    foldl (λ acc c, acc ≫= delete_page fuel' c) (Ret s0) cs = Ret s1) as Hloop.
  { induction cs as [|c cs IHcs]; intros s0 s1; [done|].
    rewrite !foldl_bind_cons. intros (s2 & Hc & Hcs). exists s2. split.
    - apply (IH fuel'); [lia|done].
    - by apply IHcs. }
  destruct (foldl _ (Ret s) (children p)) as [s1| |] eqn:E; simpl; [|done..].
  by rewrite (Hloop _ _ _ E).
Qed.

Lemma delete_page_deterministic fuel fuel' x s s1 s2 :
  delete_page fuel x s = Ret s1 → delete_page fuel' x s = Ret s2 → s1 = s2.
Proof.
  intros H1 H2.
  apply (delete_page_fuel_mono _ (fuel `max` fuel')) in H1; [|lia].
  apply (delete_page_fuel_mono _ (fuel `max` fuel')) in H2; [|lia].
  congruence.
Qed.

(** ** What a deletion leaves *)

Lemma deleted_closed s x D a b :
  deleted s x D → a ∈ D → child (DATA s) a b → b ∈ D.
Proof.
  intros HD [Hx Ha]%HD Hab. apply HD. split; [done|]. by eapply rtc_r.
Qed.

Lemma delete_page_sn data0 x :
  sn (child data0) x →
  ∀ s, (∀ a b, child (DATA s) a b → child data0 a b) →
       no_dangling (DATA s) → no_duplicates (DATA s) →
  ∃ fuel D s',
    delete_page fuel x s = Ret s'
    ∧ DATA s' = without D (DATA s)
    ∧ (is_Some (DATA s !! x) → DATA_FILE s' = JsonOf (DATA s'))
    ∧ deleted s x D.
Proof.
  induction 1 as [x _ IH]. intros s Hsub Hdang Hdup.
  destruct (DATA s !! x) as [p|] eqn:Hx.
  2:{ exists 1, ∅, s. rewrite delete_page_S, Hx, without_empty.
      split; [done|]. split; [done|]. split; [by intros []|].
      intros y. rewrite Hx. split; [set_solver|by intros [[] _]]. }
  (* the loop over the children *)
  assert (∀ cs, (∀ c, c ∈ cs → child data0 x c) →
    ∀ s, (∀ a b, child (DATA s) a b → child data0 a b) →
         no_dangling (DATA s) → no_duplicates (DATA s) →
    ∃ fuel D s',
      foldl (λ acc c, acc ≫= delete_page fuel c) (Ret s) cs = Ret s'
      ∧ DATA s' = without D (DATA s)
      ∧ ∀ y, y ∈ D ↔ ∃ c, c ∈ cs ∧ is_Some (DATA s !! c) ∧ reach (DATA s) c y)
    as Hloop.
  { clear s Hsub Hdang Hdup p Hx.
    induction cs as [|c cs IHcs]; intros Hcs s Hsub Hdang Hdup.
    { exists 0, ∅, s. rewrite without_empty. split; [done|]. split; [done|].
      intros y. split; [set_solver|]. intros (c & Hc & _). by apply elem_of_nil in Hc. }
    destruct (IH c (Hcs c ltac:(left)) s Hsub Hdang Hdup)
      as (fuel1 & D1 & s1 & Hdel1 & Hdata1 & _ & HD1).
    destruct (IHcs (λ c' Hc', Hcs c' ltac:(by right)) s1)
      as (fuel2 & D2 & s2 & Hdel2 & Hdata2 & HD2).
    { intros a b Hab. apply Hsub. rewrite Hdata1 in Hab. by eapply child_without. }
    { rewrite Hdata1. by apply no_dangling_without. }
    { rewrite Hdata1. by apply no_duplicates_without. }
    exists (fuel1 `max` fuel2), (D1 ∪ D2), s2. split; [|split].
    - apply foldl_bind_cons. exists s1. split.
      + eapply delete_page_fuel_mono; [|done]. lia.
      + clear -Hdel2. revert s1 Hdel2.
        induction cs as [|c' cs IHcs']; intros s1; [done|].
        rewrite !foldl_bind_cons. intros (s3 & Hc' & Hrest). exists s3. split.
        * eapply delete_page_fuel_mono; [|done]. lia.
        * by apply IHcs'.
    - by rewrite Hdata2, Hdata1, without_without.
    - intros y. rewrite elem_of_union. split.
      + intros [Hy|Hy].
        * apply HD1 in Hy as [??]. exists c. split; [left|done].
        * apply HD2 in Hy as (c' & Hc' & Hkey & Hreach). exists c'.
          split; [by right|]. rewrite Hdata1 in Hkey, Hreach. split.
          -- destruct Hkey as [q Hq]. rewrite without_lookup in Hq.
             case_decide; [done|]. destruct (DATA s !! c'); [by eexists|done].
          -- eapply rtc_subrel; [|done]. intros a b. apply child_without.
      + intros (c' & Hc' & Hkey & Hreach).
        destruct (decide (y ∈ D1)) as [|Hy]; [by left|].
        apply elem_of_cons in Hc' as [->|Hc'].
        { left. by apply HD1. }
        right. apply HD2. exists c'. split; [done|]. rewrite Hdata1.
        destruct (reach_without D1 (DATA s) c' y) as [Hc1 Hreach1]; [|done..|].
        { intros a b. by apply (deleted_closed s c). }
        split; [|done]. destruct Hkey as [q Hq].
        rewrite without_lookup, decide_False, Hq by done. by eexists. }
  destruct (Hloop (children p)) with (s := s)
    as (fuel & D & s1 & Hdel & Hdata & HD); [|done..|].
  { intros c Hc. apply Hsub. by exists p. }
  exists (S fuel), (D ∪ {[x]}), (save_data (set_DATA s1 (delete x (scrub x <$> DATA s1)))).
  rewrite delete_page_S, Hx, Hdel. simpl. split; [done|]. split; [|split; [done|]].
  - rewrite scrub_delete_without, Hdata, without_without; [done|].
    rewrite Hdata. by apply no_duplicates_without.
  - intros y. rewrite elem_of_union, elem_of_singleton, HD. split.
    + intros [(c & Hc & _ & Hreach)| ->]; (split; [by eexists|]); [|done].
      eapply rtc_l; [|done]. by exists p.
    + intros [_ [->|(c & (p' & Hp' & Hc) & Hreach)]%rtc_inv]; [by right|].
      left. exists c. simplify_eq. split; [done|]. split; [|done].
      specialize (map_Forall_lookup_1 _ _ _ _ Hdang Hx) as Hall.
      rewrite Forall_forall in Hall. by apply Hall.
Qed.

Lemma delete_page_returns s x :
  well_formed (DATA s) →
  ∃ fuel D s',
    delete_page fuel x s = Ret s'
    ∧ DATA s' = without D (DATA s)
    ∧ (is_Some (DATA s !! x) → DATA_FILE s' = JsonOf (DATA s'))
    ∧ deleted s x D.
Proof.
  intros (Hdang & Hacyc & Hdup).
  by apply (delete_page_sn (DATA s) x); [apply acyclic_sn|..].
Qed.

(** C2, as the code has it: in a workspace with no dangling child, no cycle
    and no identifier twice in one children list, the deletion of a key [x]
    returns, for every fuel from some bound on, one state; with [D] the set of
    [x] and its descendants, no page of [D] is left, every other page keeps
    its title, content and rows and keeps, in order, the children that are
    not in [D], so that no list mentions [x]; and the workspace is
    persisted. *)
Theorem delete_page_removes_subtree s x :
  no_dangling (DATA s) →
  acyclic (DATA s) →
  no_duplicates (DATA s) →
  is_Some (DATA s !! x) →
  ∃ fuel s' D,
    (∀ f, fuel ≤ f → delete_page f x s = Ret s')
    ∧ (∀ y, y ∈ D ↔ reach (DATA s) x y)
    ∧ (∀ y, y ∈ D → DATA s' !! y = None)
    ∧ (∀ y, y ∉ D →
         DATA s' !! y
         = (λ p, Page (title p) (content p) (filter (.∉ D) (children p)) (database p))
           <$> DATA s !! y)
    ∧ (∀ y p', DATA s' !! y = Some p' → x ∉ children p')
    ∧ DATA_FILE s' = JsonOf (DATA s').
Proof.
  intros Hdang Hacyc Hdup Hx.
  destruct (delete_page_returns s x) as (fuel & D & s' & Hdel & Hdata & Hfile & HD);
    [done|].
  assert (∀ y, y ∈ D ↔ reach (DATA s) x y) as HD' by (intros y; rewrite (HD y); tauto).
  exists fuel, s', D. repeat split.
  - intros f Hf. by eapply delete_page_fuel_mono.
  - by apply HD'.
  - by apply HD'.
  - intros y Hy. by rewrite Hdata, without_lookup, decide_True.
  - intros y Hy. by rewrite Hdata, without_lookup, decide_False.
  - intros y p' Hy Hin. rewrite Hdata, without_lookup in Hy.
    case_decide; [done|]. destruct (DATA s !! y) as [p|]; simplify_eq/=.
    apply list_elem_of_filter in Hin as [Hin _]. apply Hin, HD'. done.
  - by apply Hfile.
Qed.

Lemma family_well_formed : well_formed family.
Proof.
  split; [|split].
  - unfold no_dangling. apply (bool_decide_unpack _). by vm_compute.
  - apply (ranked_acyclic family_rank). apply (bool_decide_unpack _). by vm_compute.
  - unfold no_duplicates. apply (bool_decide_unpack _). by vm_compute.
Defined.

Lemma delete_page_removes_subtree_witness :
  ∃ fuel s' D,
    (∀ f, fuel ≤ f → delete_page f "a" (World family NoFile ∅) = Ret s')
    ∧ (∀ y, y ∈ D ↔ reach family "a" y)
    ∧ (∀ y, y ∈ D → DATA s' !! y = None)
    ∧ (∀ y, y ∉ D →
         DATA s' !! y
         = (λ p, Page (title p) (content p) (filter (.∉ D) (children p)) (database p))
           <$> family !! y)
    ∧ (∀ y p', DATA s' !! y = Some p' → "a" ∉ children p')
    ∧ DATA_FILE s' = JsonOf (DATA s').
Proof.
  destruct family_well_formed as (Hdang & Hacyc & Hdup).
  apply (delete_page_removes_subtree (World family NoFile ∅) "a" Hdang Hacyc Hdup).
  by eexists.
Defined.

Lemma twice_acyclic : acyclic twice.
Proof.
  apply (ranked_acyclic (λ x, if decide (x = "p") then 1 else 0)).
  apply (bool_decide_unpack _). by vm_compute.
Qed.

Lemma twice_no_dangling : no_dangling twice.
Proof. unfold no_dangling. apply (bool_decide_unpack _). by vm_compute. Qed.

(** C2 as stated fails: in a workspace with no dangling child and no cycle
    whose page [p] lists [x] twice, [p] still lists [x] once [x] is
    deleted. *)
Lemma duplicate_child_still_listed :
  no_dangling twice ∧ acyclic twice ∧ is_Some (twice !! "x")
  ∧ ∃ s', (∀ f, 1 ≤ f → delete_page f "x" (World twice NoFile ∅) = Ret s')
          ∧ DATA s' !! "x" = None
          ∧ DATA s' !! "p" = Some (Page "P" "" ["x"] []).
Proof.
  split; [apply twice_no_dangling|]. split; [apply twice_acyclic|].
  split; [by eexists|]. eexists. split; [|split].
  - intros f Hf. eapply delete_page_fuel_mono; [done|]. by vm_compute.
  - by vm_compute.
  - by vm_compute.
Qed.

End deletion.

(** * Sequences of additions and deletions *)

Section sequences.

Implicit Types (s : world) (data : workspace) (p : page).
Implicit Types (page_id pid x y : string) (parent_id : option string).

(** The entries of the workspace after [add_page]. *)
Lemma add_page_lookup t parent_id page_id s :
  fresh (DATA s) parent_id page_id →
  let data' := DATA (add_page t parent_id page_id s).2 in
  (∃ t', data' !! page_id = Some (Page t' "" [] []))
  ∧ ∀ q, q ≠ page_id →
      data' !! q = DATA s !! q
      ∨ ∃ p, DATA s !! q = Some p
             ∧ data' !! q = Some (set_children p (children p ++ [page_id])).
Proof.
  intros [Hnew Hparent]. unfold add_page. simpl.
  destruct parent_id as [pid|].
  2:{ split; [by rewrite lookup_insert_eq; eexists|].
      intros q Hq. left. by rewrite lookup_insert_ne. }
  assert (pid ≠ page_id) as Hne by congruence.
  case_bool_decide.
  { split; [by rewrite lookup_insert_eq; eexists|].
    intros q Hq. left. by rewrite lookup_insert_ne. }
  rewrite (lookup_insert_ne _ page_id pid) by done.
  destruct (DATA s !! pid) as [p|] eqn:Hpid.
  - split; [by rewrite lookup_insert_ne, lookup_insert_eq; eauto|].
    intros q Hq. destruct (decide (q = pid)) as [->|Hqp].
    + right. exists p. by rewrite lookup_insert_eq.
    + left. by rewrite !lookup_insert_ne.
  - split; [by rewrite lookup_insert_eq; eexists|].
    intros q Hq. left. by rewrite lookup_insert_ne.
Qed.

Lemma tc_first_step data x y : tc (child data) x y → ∃ z, child data x z.
Proof. destruct 1; eauto. Qed.

Lemma add_page_well_formed t parent_id page_id s :
  well_formed (DATA s) →
  fresh (DATA s) parent_id page_id →
  well_formed (DATA (add_page t parent_id page_id s).2).
Proof.
  intros (Hdang & Hacyc & Hdup) Hfresh.
  destruct (add_page_lookup t parent_id page_id s Hfresh) as [[t' Hnew] Hold].
  destruct Hfresh as [Hnone _].
  set (data' := DATA (add_page t parent_id page_id s).2) in *.
  assert (∀ q p, DATA s !! q = Some p → page_id ∉ children p) as Hunlisted.
  { intros q p Hq Hin.
    specialize (map_Forall_lookup_1 _ _ _ _ Hdang Hq) as Hall.
    rewrite Forall_forall in Hall. destruct (Hall _ Hin) as [? Hsome]. congruence. }
  assert (∀ q, is_Some (DATA s !! q) → is_Some (data' !! q)) as Hkeys.
  { intros q [p Hq]. assert (q ≠ page_id) as Hne by congruence.
    destruct (Hold q Hne) as [->|(p' & _ & ->)]; by eexists. }
  assert (∀ a b, child data' a b →
            a ≠ page_id ∧ (b = page_id ∨ child (DATA s) a b)) as Hchild.
  { intros a b (p' & Ha & Hb). destruct (decide (a = page_id)) as [->|Hne].
    { rewrite Hnew in Ha. simplify_eq/=. by apply elem_of_nil in Hb. }
    split; [done|]. destruct (Hold a Hne) as [Heq|(p & Hp & Heq)]; rewrite Heq in Ha.
    - right. by exists p'.
    - simplify_eq/=. apply elem_of_app in Hb as [Hb|Hb].
      + right. by exists p.
      + left. by apply list_elem_of_singleton in Hb. }
  split; [|split].
  - apply map_Forall_lookup. intros q p' Hq. apply Forall_forall. intros c Hc.
    destruct (Hchild q c) as [_ [->|(p & Hp & Hin)]]; [by exists p'|by eexists|].
    apply Hkeys. specialize (map_Forall_lookup_1 _ _ _ _ Hdang Hp) as Hall.
    rewrite Forall_forall in Hall. by apply Hall.
  - assert (∀ a b, tc (child data') a b → b = page_id ∨ tc (child (DATA s)) a b) as Htc.
    { induction 1 as [a b Hab|a b c Hab Hbc IH].
      - apply Hchild in Hab as [_ [?|?]]; [by left|right; by apply tc_once].
      - destruct IH as [?|Hbc']; [by left|]. right.
        apply Hchild in Hab as [_ [->|Hab]]; [|by eapply tc_l].
        apply tc_first_step in Hbc' as (z & p & Hp & _). congruence. }
    intros a Ha. destruct (Htc _ _ Ha) as [->|Ha']; [|by eapply Hacyc].
    apply tc_first_step in Ha as (z & Hz). by apply Hchild in Hz as [? _].
  - apply map_Forall_lookup. intros q p' Hq.
    destruct (decide (q = page_id)) as [->|Hne].
    { rewrite Hnew in Hq. simplify_eq/=. constructor. }
    destruct (Hold q Hne) as [Heq|(p & Hp & Heq)]; rewrite Heq in Hq.
    + by apply (map_Forall_lookup_1 _ _ _ _ Hdup Hq).
    + simplify_eq/=. apply NoDup_app. split; [|split].
      * by apply (map_Forall_lookup_1 _ _ _ _ Hdup Hp).
      * intros c Hc ->%list_elem_of_singleton. by eapply Hunlisted.
      * apply NoDup_singleton.
Qed.

(** C1, as the code has it: from a workspace with no dangling child, no
    cycle and no identifier twice in one children list, such as the
    single-root one, every state that a sequence of additions (with fresh
    identifiers) and deletions leaves is again such a workspace: every
    identifier in a children list is a key. And the sequence can go on: in
    the last state every deletion returns. *)
Theorem operations_keep_children_keys s ops states :
  well_formed (DATA s) →
  run s ops states →
  Forall (λ s', no_dangling (DATA s') ∧ acyclic (DATA s') ∧ no_duplicates (DATA s'))
    states
  ∧ ∀ page_id, ∃ fuel s', delete_page fuel page_id (default s (last states)) = Ret s'.
Proof.
  intros Hwf Hrun.
  assert (Forall (λ s', well_formed (DATA s')) states
          ∧ well_formed (DATA (default s (last states)))) as [Hall Hlast].
  { induction Hrun as [s|s t parent_id page_id ops states Hfresh _ IH
                        |s fuel page_id s' ops states Hdel _ IH].
    - split; [constructor|done].
    - destruct IH as [IH1 IH2]; [by apply add_page_well_formed|].
      split; [constructor; [by apply add_page_well_formed|done]|].
      rewrite last_cons. by destruct (last states).
    - assert (well_formed (DATA s')) as Hwf'.
      { destruct (delete_page_returns s page_id Hwf) as (fuel0 & D & s0 & Hdel0 & Hdata & _).
        rewrite (delete_page_deterministic _ _ _ _ _ _ Hdel Hdel0), Hdata.
        by apply well_formed_without. }
      destruct (IH Hwf') as [IH1 IH2]. split; [by constructor|].
      rewrite last_cons. by destruct (last states). }
  split; [done|]. intros page_id.
  destruct (delete_page_returns _ page_id Hlast) as (fuel & _ & s' & Hdel & _).
  by exists fuel, s'.
Qed.

Lemma world0_well_formed : well_formed (DATA world0).
Proof.
  split; [|split].
  - unfold no_dangling. apply (bool_decide_unpack _). by vm_compute.
  - apply (ranked_acyclic (λ _, 0)). apply (bool_decide_unpack _). by vm_compute.
  - unfold no_duplicates. apply (bool_decide_unpack _). by vm_compute.
Defined.

Lemma operations_keep_children_keys_witness :
  let s1 := (add_page "Notes" (Some "root") "n" world0).2 in
  let s2 := (add_page " " (Some "gone") "m" s1).2 in
  let s3 := World {[ "m" := Page "Untitled" "" [] [] ]}
              (JsonOf {[ "m" := Page "Untitled" "" [] [] ]}) ∅ in
  Forall (λ s', no_dangling (DATA s') ∧ acyclic (DATA s') ∧ no_duplicates (DATA s'))
    [s1; s2; s3]
  ∧ ∀ page_id, ∃ fuel s', delete_page fuel page_id s3 = Ret s'.
Proof.
  intros s1 s2 s3.
  apply (operations_keep_children_keys world0
           [AddPage "Notes" (Some "root") "n"; AddPage " " (Some "gone") "m";
            DeletePage "root"]
           [s1; s2; s3] world0_well_formed).
  apply run_add; [split; [reflexivity|discriminate]|].
  apply run_add; [split; [reflexivity|discriminate]|].
  apply (run_delete _ 3); [by vm_compute|]. apply run_nil.
Defined.

(** C1 as stated fails: a workspace with no dangling child whose page [p]
    lists [x] twice has a dangling child once [x] is deleted. *)
Lemma duplicate_child_left_dangling :
  no_dangling twice
  ∧ ∃ s', run (World twice NoFile ∅) [DeletePage "x"] [s']
          ∧ DATA s' !! "p" = Some (Page "P" "" ["x"] [])
          ∧ DATA s' !! "x" = None
          ∧ ¬ no_dangling (DATA s').
Proof.
  split; [apply twice_no_dangling|]. eexists. split; [|split; [|split]].
  - apply (run_delete _ 1); [by vm_compute|]. apply run_nil.
  - by vm_compute.
  - by vm_compute.
  - intros Hdang. apply (bool_decide_pack _) in Hdang. by vm_compute in Hdang.
Qed.

End sequences.

(** * The page tree *)

Section tree.

Implicit Types (s : world) (data : workspace) (p : page) (n : node).
Implicit Types (x y c r : string) (cs : list string) (ns : list node).

Lemma node_ids_Node x t ns y :
  y ∈ node_ids (Node x t ns) ↔ y = x ∨ ∃ n, n ∈ ns ∧ y ∈ node_ids n.
Proof.
  simpl. rewrite elem_of_cons. apply or_iff_compat_l.
  induction ns as [|n ns IH].
  - split; [by intros ?%elem_of_nil|]. by intros (n & ?%elem_of_nil & _).
  - rewrite elem_of_app, IH. split.
    + intros [?|(m & ? & ?)]; [exists n; split; [left|done]|].
      exists m. split; [by right|done].
    + intros (m & [->|?]%elem_of_cons & ?); [by left|]. right. by exists m.
Qed.

Lemma build_node_S fuel data x :
  build_node (S fuel) data x
  = match data !! x with
    | None => Raise (KeyError x)
    | Some p =>
        ns ← mapM (build_node fuel data) (children p);
        Ret (Node x (title p) ns)
    end.
Proof. done. Qed.

Lemma Forall2_elem_l {A B} (P : A → B → Prop) l k a :
  Forall2 P l k → a ∈ l → ∃ b, b ∈ k ∧ P a b.
Proof.
  induction 1 as [|a' b' l k Hab _ IH]; [by intros ?%elem_of_nil|].
  intros [->|Ha]%elem_of_cons.
  - exists b'. split; [left|done].
  - destruct (IH Ha) as (b & ? & ?). exists b. split; [by right|done].
Qed.

Lemma Forall2_elem_r {A B} (P : A → B → Prop) l k b :
  Forall2 P l k → b ∈ k → ∃ a, a ∈ l ∧ P a b.
Proof.
  induction 1 as [|a' b' l k Hab _ IH]; [by intros ?%elem_of_nil|].
  intros [->|Hb]%elem_of_cons.
  - exists a'. split; [left|done].
  - destruct (IH Hb) as (a & ? & ?). exists a. split; [by right|done].
Qed.

(** When every call of a list of calls returns from some fuel on, so does
    the list. *)
Lemma mapM_build_node data (P : string → node → Prop) cs :
  (∀ c, c ∈ cs →
     ∃ fuel n, (∀ f, fuel ≤ f → build_node f data c = Ret n) ∧ P c n) →
  ∃ fuel ns,
    (∀ f, fuel ≤ f → mapM (build_node f data) cs = Ret ns) ∧ Forall2 P cs ns.
Proof.
  induction cs as [|c cs IH]; intros Hcs.
  - exists 0, []. split; [done|constructor].
  - destruct (Hcs c) as (fuel1 & n & Hn & HP); [left|].
    destruct IH as (fuel2 & ns & Hns & HPs).
    { intros c' Hc'. apply Hcs. by right. }
    exists (fuel1 `max` fuel2), (n :: ns). split; [|by constructor].
    intros f Hf. simpl. rewrite Hn by lia. simpl.
    rewrite Hns by lia. done.
Qed.

(** The tree that [build_node] returns for a key holds the key and its
    descendants, and nothing else. *)
Lemma build_node_sn data x :
  no_dangling data →
  sn (child data) x →
  is_Some (data !! x) →
  ∃ fuel n,
    (∀ f, fuel ≤ f → build_node f data x = Ret n)
    ∧ node_id n = x
    ∧ ∀ y, y ∈ node_ids n ↔ reach data x y.
Proof.
  intros Hdang. induction 1 as [x _ IH]. intros [p Hx].
  specialize (map_Forall_lookup_1 _ _ _ _ Hdang Hx) as Hkeys.
  rewrite Forall_forall in Hkeys.
  destruct (mapM_build_node data
              (λ c n, node_id n = c ∧ ∀ y, y ∈ node_ids n ↔ reach data c y)
              (children p)) as (fuel & ns & Hns & HP).
  { intros c Hc. apply IH; [by exists p|by apply Hkeys]. }
  exists (S fuel), (Node x (title p) ns). split; [|split; [done|]].
  - intros [|f] Hf; [lia|]. rewrite build_node_S, Hx, Hns by lia. done.
  - intros y. rewrite node_ids_Node. split.
    + intros [->|(n & Hn & Hy)]; [done|].
      destruct (Forall2_elem_r _ _ _ _ HP Hn) as (c & Hc & Hid & Hreach).
      eapply rtc_l; [by exists p|]. by apply Hreach.
    + intros [->|(c & (p' & Hp' & Hc) & Hreach)]%rtc_inv; [by left|].
      right. simplify_eq.
      destruct (Forall2_elem_l _ _ _ _ HP Hc) as (n & Hn & _ & Hids).
      exists n. split; [done|]. by apply Hids.
Qed.

Lemma elem_of_all_children data c :
  c ∈ all_children data ↔ ∃ x, child data x c.
Proof.
  unfold all_children. rewrite elem_of_list_to_set, list_elem_of_bind. split.
  - intros ([x p] & Hc & Hxp%elem_of_map_to_list). exists x, p. done.
  - intros (x & p & Hx & Hc). exists (x, p). split; [done|].
    by apply elem_of_map_to_list.
Qed.

Lemma elem_of_root_ids data r : r ∈ root_ids data ↔ is_root data r.
Proof.
  unfold root_ids, is_root.
  rewrite list_elem_of_filter, elem_of_all_children, list_elem_of_fmap. split.
  - intros [Hnone ([r' p] & -> & Hr%elem_of_map_to_list)]. split; [by exists p|].
    intros x Hx. apply Hnone. by exists x.
  - intros [[p Hr] Hnone]. split; [by intros [x Hx%Hnone]|].
    exists (r, p). split; [done|]. by apply elem_of_map_to_list.
Qed.

(** C4: on a workspace with no dangling child and no cycle, [get_page_tree]
    returns, for every fuel from some bound on, one forest, and no lookup
    fails; an identifier is in the tree of the forest rooted at [r] exactly
    when [r] is a root of the workspace and the identifier is [r] or a
    descendant of [r] along the children lists; and every identifier in the
    forest is a key. *)
Theorem get_page_tree_matches_children s :
  no_dangling (DATA s) →
  acyclic (DATA s) →
  ∃ fuel forest,
    (∀ f, fuel ≤ f → get_page_tree f s = Ret forest)
    ∧ (∀ r y,
         (∃ n, n ∈ forest ∧ node_id n = r ∧ y ∈ node_ids n)
         ↔ is_root (DATA s) r ∧ reach (DATA s) r y)
    ∧ (∀ n y, n ∈ forest → y ∈ node_ids n → is_Some (DATA s !! y)).
Proof.
  intros Hdang Hacyc. unfold get_page_tree.
  destruct (mapM_build_node (DATA s)
              (λ c n, node_id n = c ∧ ∀ y, y ∈ node_ids n ↔ reach (DATA s) c y)
              (root_ids (DATA s))) as (fuel & forest & Hforest & HP).
  { intros r [Hr _]%elem_of_root_ids.
    by apply build_node_sn; [|apply acyclic_sn|]. }
  exists fuel, forest. split; [done|]. split.
  - intros r y. split.
    + intros (n & Hn & <- & Hy).
      destruct (Forall2_elem_r _ _ _ _ HP Hn) as (c & Hc & <- & Hreach).
      split; [by apply elem_of_root_ids|by apply Hreach].
    + intros [Hr%elem_of_root_ids Hreach].
      destruct (Forall2_elem_l _ _ _ _ HP Hr) as (n & Hn & Hid & Hids).
      exists n. split; [done|]. split; [done|]. by apply Hids.
  - intros n y Hn Hy.
    destruct (Forall2_elem_r _ _ _ _ HP Hn) as (c & [Hc _]%elem_of_root_ids & _ & Hreach).
    eapply reach_key; [done..|]. by apply Hreach.
Qed.

Lemma get_page_tree_matches_children_witness :
  ∃ fuel forest,
    (∀ f, fuel ≤ f → get_page_tree f (World family NoFile ∅) = Ret forest)
    ∧ (∀ r y,
         (∃ n, n ∈ forest ∧ node_id n = r ∧ y ∈ node_ids n)
         ↔ is_root family r ∧ reach family r y)
    ∧ (∀ n y, n ∈ forest → y ∈ node_ids n → is_Some (family !! y)).
Proof.
  destruct family_well_formed as (Hdang & Hacyc & _).
  exact (get_page_tree_matches_children (World family NoFile ∅) Hdang Hacyc).
Defined.

(** The forest of the example workspace. *)
Example get_page_tree_family :
  get_page_tree 3 (World family NoFile ∅)
  = Ret [Node "root" "Home"
           [Node "a" "A" [Node "b" "B" []]; Node "c" "C" []]].
Proof. by vm_compute. Qed.

(** A dangling child makes the lookup fail. *)
Example get_page_tree_dangling :
  get_page_tree 2 (World {[ "p" := Page "P" "" ["x"] [] ]} NoFile ∅)
  = Raise (KeyError "x").
Proof. by vm_compute. Qed.

End tree.

(** * Escaping *)

Section escaping.

Implicit Types (a b text : string) (c : ascii).

Lemma append_String c a b : String c a +:+ b = String c (a +:+ b).
Proof. done. Qed.

Lemma append_assoc a b text : (a +:+ b) +:+ text = a +:+ (b +:+ text).
Proof. induction a as [|c a IH]; [done|]. by rewrite !append_String, IH. Qed.

Lemma replace_app old new a b :
  replace old new (a +:+ b) = replace old new a +:+ replace old new b.
Proof.
  induction a as [|c a IH]; [done|]. rewrite append_String. simpl.
  case_decide; rewrite IH; [by rewrite append_assoc|done].
Qed.

(** The five replacements in a row do to each character what
    [escape_char] does: no replacement touches what an earlier one wrote. *)
Lemma html_escape_String c text :
  html_escape (String c text) = escape_char c +:+ html_escape text.
Proof.
  unfold html_escape, escape_char.
  change (String c text) with (String c "" +:+ text).
  rewrite (replace_app "&"). simpl (replace "&" _ (String c "")).
  destruct (decide (c = "&"%char)) as [->|].
  { rewrite !replace_app. done. }
  rewrite (replace_app "<"). simpl (replace "<" _ (String c "")).
  destruct (decide (c = "<"%char)) as [->|].
  { rewrite !replace_app. done. }
  rewrite (replace_app ">"). simpl (replace ">" _ (String c "")).
  destruct (decide (c = ">"%char)) as [->|].
  { rewrite !replace_app. done. }
  rewrite (replace_app DQUOTE). simpl (replace DQUOTE _ (String c "")).
  destruct (decide (c = DQUOTE)) as [->|].
  { rewrite !replace_app. done. }
  rewrite (replace_app "'"). simpl (replace "'" _ (String c "")).
  by destruct (decide (c = "'"%char)) as [->|].
Qed.

Lemma occurs_app c a b : occurs c (a +:+ b) = occurs c a || occurs c b.
Proof. induction a as [|c' a IH]; simpl; [done|]. by rewrite IH, orb_assoc. Qed.

Lemma occurs_escape_char c (c' : ascii) :
  c ∈ ["<"; ">"; DQUOTE; "'"]%char → occurs c (escape_char c') = false.
Proof.
  intros Hc. unfold escape_char.
  repeat (apply elem_of_cons in Hc as [->|Hc]); [..|by apply elem_of_nil in Hc];
    repeat case_decide; subst; try done;
    simpl; rewrite bool_decide_eq_false_2; done.
Qed.

(** X1: the output of [html_escape] holds none of the characters that open
    or close a tag or an attribute value. *)
Theorem html_escape_no_markup text :
  occurs "<" (html_escape text) = false
  ∧ occurs ">" (html_escape text) = false
  ∧ occurs DQUOTE (html_escape text) = false
  ∧ occurs "'" (html_escape text) = false.
Proof.
  induction text as [|c text (IH1 & IH2 & IH3 & IH4)]; [done|].
  rewrite html_escape_String, !occurs_app, IH1, IH2, IH3, IH4.
  rewrite !occurs_escape_char; [done|set_solver..].
Qed.

(** X2: escaping a text in pieces and joining the results is escaping the
    whole text. *)
Theorem html_escape_app a b :
  html_escape (a +:+ b) = html_escape a +:+ html_escape b.
Proof. unfold html_escape. by rewrite !replace_app. Qed.

Lemma escape_char_cancel c1 c2 a b :
  escape_char c1 +:+ a = escape_char c2 +:+ b → c1 = c2 ∧ a = b.
Proof.
  unfold escape_char. repeat case_decide; subst; simpl; intros [= ]; by subst.
Qed.

(** X3: no two texts have the same escaped form. *)
Theorem html_escape_inj a b : html_escape a = html_escape b → a = b.
Proof.
  revert b. induction a as [|c1 a IH]; intros [|c2 b]; [done|..].
  - rewrite html_escape_String. unfold escape_char. by repeat case_decide.
  - rewrite html_escape_String. unfold escape_char. by repeat case_decide.
  - rewrite !html_escape_String. intros [-> Hab]%escape_char_cancel.
    by rewrite (IH b Hab).
Qed.

Lemma html_escape_inj_witness : "a<b" = "a<b".
Proof. apply (html_escape_inj "a<b" "a<b"). reflexivity. Defined.

End escaping.

(** * Search *)

Section searching.

Implicit Types (s : world) (p : page) (q query a b : string) (h : hit).

Lemma startswith_app q b : startswith q (q +:+ b) = true.
Proof. induction q as [|c q IH]; simpl; [done|]. by rewrite decide_True. Qed.

(** [contains] decides whether the first string occurs in the second. *)
Lemma contains_spec q text :
  contains q text = true ↔ ∃ a b, text = a +:+ q +:+ b.
Proof.
  split.
  - induction text as [|c text IH]; simpl.
    + rewrite orb_false_r. intros [b ->]%startswith_inv. by exists "", b.
    + intros [[b ->]%startswith_inv|Hrec]%orb_true_iff.
      * by exists "", b.
      * destruct (IH Hrec) as (a & b & ->). by exists (String c a), b.
  - intros (a & b & ->). induction a as [|c a IH]; simpl.
    + destruct (q +:+ b) eqn:E; simpl; rewrite <- E, startswith_app; done.
    + rewrite IH. apply orb_true_r.
Qed.

Lemma lower_app a b : lower (a +:+ b) = lower a +:+ lower b.
Proof. induction a as [|c a IH]; simpl; [done|]. by rewrite IH. Qed.

(** X4: the results of [search_pages] are the pages whose lower-cased title
    or content holds the lower-cased query, each with its identifier and
    title, and no others. *)
Theorem search_pages_spec query s h :
  h ∈ search_pages query s
  ↔ ∃ pid p, DATA s !! pid = Some p
      ∧ h = Hit pid (title p)
      ∧ (contains (lower query) (lower (title p)) = true
         ∨ contains (lower query) (lower (content p)) = true).
Proof.
  unfold search_pages. rewrite list_elem_of_fmap. split.
  - intros ([pid p] & -> & [Hm Hp%elem_of_map_to_list]%list_elem_of_filter).
    exists pid, p. split; [done|]. split; [done|].
    simpl in Hm. apply orb_True in Hm as [Hm|Hm]; [left|right]; by apply Is_true_eq_true.
  - intros (pid & p & Hp & -> & Hm). exists (pid, p). split; [done|].
    apply list_elem_of_filter. split; [|by apply elem_of_map_to_list].
    simpl. apply orb_True. destruct Hm as [->| ->]; [by left|by right].
Qed.

(** X5: when the query, the titles and the contents are made of code points
    below 256 (as all strings of this model are), a page is found whenever its
    title or its content holds some text that differs from the query by case
    only. *)
Theorem search_pages_ignores_case query q a b s pid p :
  DATA s !! pid = Some p →
  lower q = lower query →
  title p = a +:+ q +:+ b ∨ content p = a +:+ q +:+ b →
  Hit pid (title p) ∈ search_pages query s.
Proof.
  intros Hp Hq Hin. apply search_pages_spec. exists pid, p.
  split; [done|]. split; [done|]. rewrite <- Hq.
  destruct Hin as [->| ->]; [left|right];
    apply contains_spec; exists (lower a), (lower b); by rewrite !lower_app.
Qed.

Lemma search_pages_ignores_case_witness :
  Hit "n" "Shopping"
  ∈ search_pages "MILK"
      (World {[ "n" := Page "Shopping" "- [ ] buy Milk." [] [] ]} NoFile ∅).
Proof.
  apply (search_pages_ignores_case "MILK" "Milk" "- [ ] buy " "."
           (World {[ "n" := Page "Shopping" "- [ ] buy Milk." [] [] ]} NoFile ∅)
           "n" (Page "Shopping" "- [ ] buy Milk." [] []));
    [reflexivity | reflexivity | by right].
Defined.

Lemma NoDup_fst_filter {A B} (P : A * B → Prop) `{!∀ x, Decision (P x)} (l : list (A * B)) :
  NoDup l.*1 → NoDup (filter P l).*1.
Proof.
  induction l as [|[k v] l IH]; [done|]. rewrite fmap_cons, NoDup_cons.
  intros [Hk Hl]. rewrite filter_cons. case_decide; [|by apply IH].
  rewrite fmap_cons, NoDup_cons. split; [|by apply IH].
  intros ([k' v'] & Heq & [_ Hin]%list_elem_of_filter)%list_elem_of_fmap.
  simpl in Heq. subst k'. apply Hk, list_elem_of_fmap. by exists (k, v').
Qed.

(** X6: no page is listed twice in the results of a search. *)
Theorem search_pages_NoDup query s : NoDup (hit_id <$> search_pages query s).
Proof.
  unfold search_pages. rewrite <- list_fmap_compose.
  apply (NoDup_fst_filter _ (map_to_list (DATA s))), NoDup_fst_map_to_list.
Qed.

(** X7: the empty query matches every page in [search_pages], and the
    handler [search] answers it with no result. *)
Theorem search_empty_query s :
  hit_id <$> search_pages "" s = (map_to_list (DATA s)).*1
  ∧ search "" s = [].
Proof.
  split; [|done]. unfold search_pages. rewrite <- list_fmap_compose.
  f_equal. induction (map_to_list (DATA s)) as [|kv l IH]; [done|].
  rewrite filter_cons_True; [by rewrite IH|].
  simpl. by destruct (lower (title kv.2)).
Qed.

End searching.

(** * Further properties of the page operations *)

Section more_operations.

Implicit Types (s : world) (data : workspace) (p : page).
Implicit Types (page_id pid x y : string) (parent_id : option string).

(** ** Deletion in any workspace *)

Lemma remove_first_sublist x (l : list string) : remove_first x l `sublist_of` l.
Proof.
  induction l as [|y l IH]; simpl; [done|]. case_decide.
  - by apply sublist_cons.
  - by apply sublist_skip.
Qed.

Lemma shrinks_refl s : shrinks s s.
Proof. split; [done|]. intros y p' Hy. exists p'. by repeat split. Qed.

Lemma shrinks_trans s1 s2 s3 : shrinks s1 s2 → shrinks s2 s3 → shrinks s1 s3.
Proof.
  intros [Hs12 H12] [Hs23 H23]. split; [congruence|]. intros y p3 Hy.
  destruct (H23 y p3 Hy) as (p2 & Hp2 & ? & ? & ? & ?).
  destruct (H12 y p2 Hp2) as (p1 & Hp1 & ? & ? & ? & ?).
  exists p1. repeat split; try congruence. by etrans.
Qed.

Lemma foldl_bind_rel {A B} (R : relation A) (h : B → A → res A) (l : list B) a a' :
  Reflexive R → Transitive R →
  (∀ b a1 a2, b ∈ l → h b a1 = Ret a2 → R a1 a2) →
  foldl (λ acc b, acc ≫= h b) (Ret a) l = Ret a' → R a a'.
Proof.
  intros ??. revert a. induction l as [|b l IH]; intros a Hstep.
  - by intros [= ->].
  - intros (a1 & Hb & Hl)%foldl_bind_cons. trans a1.
    + apply (Hstep b); [left|done].
    + apply IH; [|done]. intros b' ???. apply (Hstep b'). by right.
Qed.

(** X8: in any workspace, well formed or not, a deletion that returns has
    removed the page, has added no page and no child, has left the title,
    content and rows of every page that is still there, and the sessions, as
    they were, and has kept the file in step with the workspace if it was. *)
Theorem delete_page_only_removes fuel x s s' :
  delete_page fuel x s = Ret s' →
  DATA s' !! x = None ∧ shrinks s s' ∧ (synced s → synced s').
Proof.
  revert x s s'. induction fuel as [|fuel IH]; intros x s s'; [done|].
  rewrite delete_page_S. destruct (DATA s !! x) as [p|] eqn:Hx.
  2:{ intros [= <-]. split; [done|]. split; [apply shrinks_refl|done]. }
  destruct (foldl _ (Ret s) (children p)) as [s1| |] eqn:Hloop; simpl; [|done..].
  intros [= <-]. simpl. split; [by rewrite lookup_delete_eq|]. split; [|done].
  apply (shrinks_trans _ s1).
  - apply (foldl_bind_rel shrinks (delete_page fuel) (children p));
      [intros ?; apply shrinks_refl|intros ???; apply shrinks_trans| |done].
    intros c s2 s3 _ Hc. by apply (IH c s2 s3).
  - split; [done|]. simpl. intros y p' Hy.
    rewrite lookup_delete in Hy. case_decide; [done|].
    rewrite lookup_fmap in Hy. destruct (DATA s1 !! y) as [p1|]; simplify_eq/=.
    exists p1. repeat split. apply remove_first_sublist.
Qed.

Lemma delete_page_only_removes_witness :
  ∃ s', DATA s' !! "x" = None
        ∧ shrinks (World twice NoFile ∅) s'
        ∧ (synced (World twice NoFile ∅) → synced s').
Proof.
  eexists. apply (delete_page_only_removes 1 "x" (World twice NoFile ∅)).
  reflexivity.
Defined.

(** ** Updating *)

Lemma or_default_strip_nonempty t : or_default (strip t) "Untitled" ≠ "".
Proof. unfold or_default. by destruct (strip t). Qed.

(** X9: on an existing page [update_page] sets the title to the trimmed
    input (the placeholder when nothing is left) and the content to the
    input as it is, keeps the children and the rows of the page, leaves
    every other page and the sessions, and persists the workspace. *)
Theorem update_page_existing page_id t c s p :
  DATA s !! page_id = Some p →
  let s' := update_page page_id t c s in
  DATA s' !! page_id
  = Some (Page (if decide (strip t = "") then "Untitled" else strip t) c
            (children p) (database p))
  ∧ (∀ q, q ≠ page_id → DATA s' !! q = DATA s !! q)
  ∧ SESSIONS s' = SESSIONS s
  ∧ synced s'.
Proof.
  intros Hp s'. subst s'. unfold update_page. rewrite Hp. simpl.
  split; [|split; [|done]].
  - rewrite lookup_insert_eq. unfold set_text, or_default.
    destruct (strip t); by case_decide.
  - intros q Hq. by rewrite lookup_insert_ne.
Qed.

Lemma update_page_existing_witness :
  let s' := update_page "root" "  " "- [ ] buy milk" world1 in
  DATA s' !! "root"
  = Some (Page (if decide (strip "  " = "") then "Untitled" else strip "  ")
            "- [ ] buy milk" (children home) (database home))
  ∧ (∀ q, q ≠ "root" → DATA s' !! q = DATA world1 !! q)
  ∧ SESSIONS s' = SESSIONS world1
  ∧ synced s'.
Proof. apply (update_page_existing "root" "  " "- [ ] buy milk" world1 home). reflexivity. Defined.

(** X10: the last update wins: an update of a page followed by another
    update of the same page leaves the state the second update alone
    leaves; in particular an update done twice is an update done once. *)
Theorem update_page_last_wins page_id t1 c1 t2 c2 s :
  update_page page_id t2 c2 (update_page page_id t1 c1 s)
  = update_page page_id t2 c2 s.
Proof.
  unfold update_page. destruct (DATA s !! page_id) as [p|] eqn:Hp; simpl.
  - rewrite lookup_insert_eq. unfold save_data, set_DATA. simpl.
    by rewrite insert_insert_eq.
  - by rewrite Hp.
Qed.

(** ** What the operations keep *)

Lemma same_links_well_formed data data' :
  (∀ y, children <$> data' !! y = children <$> data !! y) →
  well_formed data → well_formed data'.
Proof.
  intros Hsame.
  assert (∀ y p', data' !! y = Some p' →
            ∃ p, data !! y = Some p ∧ children p' = children p) as Hback.
  { intros y p' Hy. specialize (Hsame y). rewrite Hy in Hsame.
    destruct (data !! y) as [p|]; simplify_eq/=. by exists p. }
  assert (∀ a b, child data' a b → child data a b) as Hchild.
  { intros a b (p' & Hp' & Hb). destruct (Hback a p' Hp') as (p & Hp & Heq).
    exists p. by rewrite <- Heq. }
  intros (Hdang & Hacyc & Hdup). split; [|split].
  - apply map_Forall_lookup. intros y p' Hy. apply Forall_forall. intros b Hb.
    destruct (Hback y p' Hy) as (p & Hp & Heq).
    specialize (map_Forall_lookup_1 _ _ _ _ Hdang Hp) as Hall.
    rewrite Forall_forall in Hall. rewrite Heq in Hb.
    destruct (Hall b Hb) as [q Hq]. specialize (Hsame b). rewrite Hq in Hsame.
    destruct (data' !! b); [by eexists|done].
  - by eapply acyclic_sub.
  - apply map_Forall_lookup. intros y p' Hy.
    destruct (Hback y p' Hy) as (p & Hp & Heq). rewrite Heq.
    by apply (map_Forall_lookup_1 _ _ _ _ Hdup Hp).
Qed.

(** X11: [update_page] and the row handler [add_db_row] change no key and no
    children list, so they keep a workspace free of dangling children, of
    cycles and of repeated children. *)
Theorem update_and_rows_keep_links page_id t c r s :
  let s1 := update_page page_id t c s in
  let s2 := (add_db_row r page_id s).2 in
  (∀ y, children <$> DATA s1 !! y = children <$> DATA s !! y)
  ∧ (∀ y, children <$> DATA s2 !! y = children <$> DATA s !! y)
  ∧ (well_formed (DATA s) → well_formed (DATA s1) ∧ well_formed (DATA s2)).
Proof.
  intros s1 s2.
  assert (∀ y, children <$> DATA s1 !! y = children <$> DATA s !! y) as H1.
  { intros y. subst s1. unfold update_page.
    destruct (DATA s !! page_id) as [p|] eqn:Hp; [|done]. simpl.
    destruct (decide (y = page_id)) as [->|Hne].
    - by rewrite lookup_insert_eq, Hp.
    - by rewrite lookup_insert_ne. }
  assert (∀ y, children <$> DATA s2 !! y = children <$> DATA s !! y) as H2.
  { intros y. subst s2. unfold add_db_row.
    destruct (require_login r s); [done|].
    destruct (DATA s !! page_id) as [p|] eqn:Hp; [|done]. simpl.
    destruct (decide (y = page_id)) as [->|Hne].
    - by rewrite lookup_insert_eq, Hp.
    - by rewrite lookup_insert_ne. }
  split; [done|]. split; [done|]. intros Hwf.
  split; by eapply same_links_well_formed.
Qed.

Lemma add_page_titled t parent_id page_id s :
  titled (DATA s) → titled (DATA (add_page t parent_id page_id s).2).
Proof.
  intros Ht. unfold add_page. simpl.
  assert (titled (<[page_id:=Page (or_default (strip t) "Untitled") "" [] []]> (DATA s)))
    as Hnew.
  { apply map_Forall_insert_2; [apply or_default_strip_nonempty|done]. }
  destruct parent_id as [pid|]; [|done]. case_bool_decide; [done|].
  destruct (_ !! pid) as [p|] eqn:Hpid; [|done].
  apply map_Forall_insert_2; [|done]. simpl.
  by apply (map_Forall_lookup_1 _ _ _ _ Hnew Hpid).
Qed.

(** X12: no operation leaves a page without a title: when every page has a
    non-empty title, so has every page after [add_page], [update_page],
    [delete_page] and the row handler. *)
Theorem operations_keep_titles t c parent_id page_id r fuel s :
  titled (DATA s) →
  titled (DATA (add_page t parent_id page_id s).2)
  ∧ titled (DATA (update_page page_id t c s))
  ∧ (∀ s', delete_page fuel page_id s = Ret s' → titled (DATA s'))
  ∧ titled (DATA (add_db_row r page_id s).2).
Proof.
  intros Ht. split; [by apply add_page_titled|]. split; [|split].
  - unfold update_page. destruct (DATA s !! page_id) as [p|]; [|done]. simpl.
    apply map_Forall_insert_2; [apply or_default_strip_nonempty|done].
  - intros s' (_ & [_ Hsh] & _)%delete_page_only_removes.
    apply map_Forall_lookup. intros y p' Hy.
    destruct (Hsh y p' Hy) as (p & Hp & -> & _).
    by apply (map_Forall_lookup_1 _ _ _ _ Ht Hp).
  - unfold add_db_row. destruct (require_login r s); [done|].
    destruct (DATA s !! page_id) as [p|] eqn:Hp; [|done]. simpl.
    apply map_Forall_insert_2; [|done]. simpl.
    by apply (map_Forall_lookup_1 _ _ _ _ Ht Hp).
Qed.

Lemma operations_keep_titles_witness :
  titled (DATA (add_page " " (Some "root") "n" world1).2)
  ∧ titled (DATA (update_page "n" " " "" world1))
  ∧ (∀ s', delete_page 2 "n" world1 = Ret s' → titled (DATA s'))
  ∧ titled (DATA (add_db_row (post ∅) "n" world1).2).
Proof.
  apply (operations_keep_titles " " "" (Some "root") "n" (post ∅) 2 world1).
  unfold titled. apply (bool_decide_unpack _). by vm_compute.
Defined.

(** X13: once the file holds the workspace, it holds it after every
    operation, so that loading the file gives back the workspace in memory:
    after [add_page], [update_page], [delete_page] and the row handler. *)
Theorem operations_keep_file_in_step t c parent_id page_id r fuel root_id s :
  synced s →
  let reloads s' := load_data root_id (DATA_FILE s') = (Ret (DATA s'), DATA_FILE s') in
  reloads (add_page t parent_id page_id s).2
  ∧ reloads (update_page page_id t c s)
  ∧ (∀ s', delete_page fuel page_id s = Ret s' → reloads s')
  ∧ reloads (add_db_row r page_id s).2.
Proof.
  intros Hs reloads.
  assert (∀ s', synced s' → reloads s') as Hreload.
  { intros s' Hs'. unfold reloads. by rewrite Hs'. }
  split; [by apply Hreload|]. split; [|split].
  - apply Hreload. unfold update_page. by destruct (DATA s !! page_id).
  - intros s' (_ & _ & Hsync)%delete_page_only_removes. by apply Hreload, Hsync.
  - apply Hreload. unfold add_db_row. destruct (require_login r s); [done|].
    by destruct (DATA s !! page_id).
Qed.

Lemma operations_keep_file_in_step_witness :
  let s := save_data world1 in
  let reloads s' := load_data "r" (DATA_FILE s') = (Ret (DATA s'), DATA_FILE s') in
  reloads (add_page "T" None "n" s).2
  ∧ reloads (update_page "n" "T" "" s)
  ∧ (∀ s', delete_page 1 "n" s = Ret s' → reloads s')
  ∧ reloads (add_db_row (post ∅) "n" s).2.
Proof.
  apply (operations_keep_file_in_step "T" "" None "n" (post ∅) 1 "r" (save_data world1)).
  reflexivity.
Defined.

(** ** Adding and deleting *)

Lemma remove_first_app_new x (l : list string) :
  x ∉ l → remove_first x (l ++ [x]) = l.
Proof.
  induction l as [|y l IH]; simpl; intros Hx.
  - by rewrite decide_True.
  - rewrite decide_False by set_solver. rewrite IH; [done|set_solver].
Qed.

Lemma remove_first_absent x (l : list string) : x ∉ l → remove_first x l = l.
Proof.
  induction l as [|y l IH]; simpl; intros Hx; [done|].
  rewrite decide_False by set_solver. rewrite IH; [done|set_solver].
Qed.

(** X14: in a workspace without dangling children, a page that was just
    added, under a parent or not, is taken out again by its deletion: the
    workspace is the one before the addition. *)
Theorem add_then_delete_restores t parent_id page_id fuel s :
  no_dangling (DATA s) →
  fresh (DATA s) parent_id page_id →
  ∃ s', delete_page (S fuel) page_id (add_page t parent_id page_id s).2 = Ret s'
        ∧ DATA s' = DATA s.
Proof.
  intros Hdang Hfresh.
  destruct (add_page_lookup t parent_id page_id s Hfresh) as [[t' Hnew] Hold].
  destruct Hfresh as [Hnone _].
  rewrite delete_page_S, Hnew. simpl. eexists. split; [done|]. simpl.
  apply map_eq. intros y. rewrite lookup_delete, lookup_fmap.
  destruct (decide (page_id = y)) as [<-|Hne]; [done|].
  assert (∀ p, DATA s !! y = Some p → page_id ∉ children p) as Hunlisted.
  { intros p Hp Hin. specialize (map_Forall_lookup_1 _ _ _ _ Hdang Hp) as Hall.
    rewrite Forall_forall in Hall. destruct (Hall _ Hin) as [? ?]. congruence. }
  destruct (Hold y) as [Heq|(p & Hp & Heq)]; [done|..];
    change (DATA (add_page t parent_id page_id s).2) with
      (DATA (save_data (set_DATA s (DATA (add_page t parent_id page_id s).2)))) in Heq;
    simpl in Heq; rewrite Heq.
  - destruct (DATA s !! y) as [[ty cy csy dy]|] eqn:Hy; simpl; [|done].
    unfold scrub, set_children. simpl.
    by rewrite remove_first_absent by (by apply (Hunlisted _ eq_refl)).
  - rewrite Hp. simpl. unfold scrub, set_children. simpl.
    rewrite remove_first_app_new by (by apply Hunlisted). by destruct p.
Qed.

Lemma add_then_delete_restores_witness :
  ∃ s', delete_page 1 "n" (add_page "Notes" (Some "root") "n" world0).2 = Ret s'
        ∧ DATA s' = DATA world0.
Proof.
  apply (add_then_delete_restores "Notes" (Some "root") "n" 0 world0).
  - unfold no_dangling. apply (bool_decide_unpack _). by vm_compute.
  - split; [reflexivity|discriminate].
Defined.

End more_operations.

(** * Sessions, settings and the assistant *)

Section sessions.

Implicit Types (s : world) (r : request) (p : prefs) (page_id : string).

Lemma require_login_None r s :
  get_current_user r s = None →
  require_login r s = Some (RedirectResponse ("/login?next=" +:+ url_path r) 302).
Proof. unfold require_login. by intros ->. Qed.

(** X15: a request that carries no session known to the server changes
    nothing through the handlers that write: creating, editing and deleting a
    page, adding a row, changing the model and chatting all answer with the
    redirect to the login page, which names the path to come back to, and
    leave the pages, the file, the sessions, the settings and the history as
    they were. *)
Theorem no_session_no_change r page_id fuel s p :
  get_current_user r s = None →
  let to_login := RedirectResponse ("/login?next=" +:+ url_path r) 302 in
  create_page r page_id s = (to_login, s)
  ∧ edit_page r page_id s = (to_login, s)
  ∧ delete_page_route fuel r page_id s = Ret (to_login, s)
  ∧ add_db_row r page_id s = (to_login, s)
  ∧ update_settings r s p = (to_login, p)
  ∧ ai_chat_post r s p = (to_login, p).
Proof.
  intros Hnone%require_login_None to_login.
  unfold create_page, edit_page, delete_page_route, add_db_row, update_settings,
    ai_chat_post. by rewrite Hnone.
Qed.

Lemma no_session_no_change_witness :
  let r := Request (Some "old") "/page/root/delete" ∅ in
  let to_login := RedirectResponse ("/login?next=" +:+ url_path r) 302 in
  create_page r "root" world1 = (to_login, world1)
  ∧ edit_page r "root" world1 = (to_login, world1)
  ∧ delete_page_route 2 r "root" world1 = Ret (to_login, world1)
  ∧ add_db_row r "root" world1 = (to_login, world1)
  ∧ update_settings r world1 prefs_blue = (to_login, prefs_blue)
  ∧ ai_chat_post r world1 prefs_blue = (to_login, prefs_blue).
Proof.
  apply (no_session_no_change (Request (Some "old") "/page/root/delete" ∅)
           "root" 2 world1 prefs_blue).
  reflexivity.
Defined.

(** X16: after [logout] the cookie of the request opens no session any more,
    so a row-add with it changes nothing; the sessions of other cookies, the
    pages and the file are untouched; the answer is the redirect to the login
    page and the deletion of the session cookie. *)
Theorem logout_closes_session r page_id s :
  let s' := (logout r s).2 in
  (logout r s).1 = (RedirectResponse "/login" 302, "session_id")
  ∧ get_current_user r s' = None
  ∧ (∀ session_id, cookie_session_id r ≠ Some session_id →
       SESSIONS s' !! session_id = SESSIONS s !! session_id)
  ∧ DATA s' = DATA s ∧ DATA_FILE s' = DATA_FILE s
  ∧ add_db_row r page_id s'
    = (RedirectResponse ("/login?next=" +:+ url_path r) 302, s').
Proof.
  intros s'.
  assert (get_current_user r s' = None) as Hnone.
  { subst s'. unfold logout, get_current_user. simpl.
    destruct (cookie_session_id r) as [session_id|]; [|done].
    case_bool_decide; [done|].
    destruct (SESSIONS s !! session_id) eqn:E; simpl; [|done].
    by rewrite lookup_delete_eq. }
  split; [done|]. split; [done|]. split; [|split; [|split]].
  - intros session_id Hne. subst s'. unfold logout. simpl.
    destruct (cookie_session_id r) as [sid|]; [|done].
    case_bool_decide; [done|]. destruct (SESSIONS s !! sid); [|done]. simpl.
    rewrite lookup_delete_ne; [done|congruence].
  - subst s'. unfold logout. simpl. destruct (cookie_session_id r); [|done].
    case_bool_decide; [done|]. by destruct (SESSIONS s !! _).
  - subst s'. unfold logout. simpl. destruct (cookie_session_id r); [|done].
    case_bool_decide; [done|]. by destruct (SESSIONS s !! _).
  - unfold add_db_row. by rewrite (require_login_None _ _ Hnone).
Qed.

(** X17: [toggle_theme] always leaves one of the two known themes, and never
    the theme it found; it records the theme in the settings and writes the
    settings file; and toggling twice from a known theme gives that theme
    back. *)
Theorem toggle_theme_flips referer referer' p :
  let p1 := (toggle_theme referer p).2 in
  let p2 := (toggle_theme referer' p1).2 in
  (SELECTED_THEME p1 = "light" ∨ SELECTED_THEME p1 = "dark")
  ∧ SELECTED_THEME p1 ≠ SELECTED_THEME p
  ∧ SETTINGS p1 !! "theme" = Some (SELECTED_THEME p1)
  ∧ SETTINGS_FILE p1 = SettingsJson (SETTINGS p1)
  ∧ (SELECTED_THEME p = "light" ∨ SELECTED_THEME p = "dark" →
     SELECTED_THEME p2 = SELECTED_THEME p).
Proof.
  intros p1 p2. subst p2 p1. unfold toggle_theme. simpl.
  split; [case_bool_decide; by eauto|]. split.
  { case_bool_decide as Ht; [by rewrite Ht|done]. }
  split; [by rewrite lookup_insert_eq|]. split; [done|].
  intros [Ht|Ht]; rewrite Ht; done.
Qed.

(** X18: the model chosen in the settings by a caller with a session is
    recorded and saved, and it is the model the assistant names when the
    chat names none or an empty one, while a model named in the chat takes
    its place. *)
Theorem chosen_model_is_used r s p model rest prompt other :
  is_Some (get_current_user r s) →
  form r !! "model" = Some (model, rest) →
  model ≠ "" →
  other ≠ "" →
  let p' := (update_settings r s p).2 in
  SETTINGS p' !! "model" = Some model
  ∧ SETTINGS_FILE p' = SettingsJson (SETTINGS p')
  ∧ call_ai_model None prompt p' = "[Model: " +:+ model +:+ "] You said: " +:+ prompt
  ∧ call_ai_model (Some "") prompt p' = "[Model: " +:+ model +:+ "] You said: " +:+ prompt
  ∧ call_ai_model (Some other) prompt p' = "[Model: " +:+ other +:+ "] You said: " +:+ prompt.
Proof.
  intros [u Hu] Hform Hmodel Hother p'. subst p'.
  unfold update_settings, require_login. rewrite Hu, Hform. simpl.
  rewrite bool_decide_eq_false_2 by done. simpl.
  split; [by rewrite lookup_insert_eq|]. split; [done|].
  unfold call_ai_model, or_default. simpl.
  split; [done|]. split; [done|]. by destruct other.
Qed.

Lemma chosen_model_is_used_witness :
  let p' := (update_settings (post {[ "model" := ("Claude", []) ]}) world1 prefs_blue).2 in
  SETTINGS p' !! "model" = Some "Claude"
  ∧ SETTINGS_FILE p' = SettingsJson (SETTINGS p')
  ∧ call_ai_model None "hi" p' = "[Model: " +:+ "Claude" +:+ "] You said: " +:+ "hi"
  ∧ call_ai_model (Some "") "hi" p' = "[Model: " +:+ "Claude" +:+ "] You said: " +:+ "hi"
  ∧ call_ai_model (Some "GPT-4") "hi" p'
    = "[Model: " +:+ "GPT-4" +:+ "] You said: " +:+ "hi".
Proof.
  apply (chosen_model_is_used (post {[ "model" := ("Claude", []) ]}) world1 prefs_blue
           "Claude" [] "hi" "GPT-4"); [by eexists|reflexivity|done|done].
Defined.

(** X19: for a caller with a session the handler [create_page] redirects to
    the page of the drawn identifier, and that page exists when the redirect
    is followed; the workspace has been persisted. *)
Theorem create_page_redirect_exists r page_id s :
  is_Some (get_current_user r s) →
  (create_page r page_id s).1 = RedirectResponse ("/page/" +:+ page_id) 302
  ∧ is_Some (DATA (create_page r page_id s).2 !! page_id)
  ∧ synced (create_page r page_id s).2.
Proof.
  intros [u Hu]. unfold create_page, require_login. rewrite Hu.
  unfold add_page. simpl. split; [done|]. split; [|done].
  destruct (fst <$> form r !! "parent") as [pid|]; [|by rewrite lookup_insert_eq].
  case_bool_decide; [by rewrite lookup_insert_eq|].
  destruct (_ !! pid) as [p|] eqn:Hp; [|by rewrite lookup_insert_eq].
  destruct (decide (pid = page_id)) as [->|Hne].
  - by rewrite lookup_insert_eq.
  - by rewrite lookup_insert_ne, lookup_insert_eq.
Qed.

Lemma create_page_redirect_exists_witness :
  (create_page (post {[ "parent" := ("root", []) ]}) "n" world1).1
  = RedirectResponse ("/page/" +:+ "n") 302
  ∧ is_Some (DATA (create_page (post {[ "parent" := ("root", []) ]}) "n" world1).2 !! "n")
  ∧ synced (create_page (post {[ "parent" := ("root", []) ]}) "n" world1).2.
Proof.
  apply (create_page_redirect_exists (post {[ "parent" := ("root", []) ]}) "n" world1).
  by eexists.
Defined.

End sessions.

(** * Further properties of the page tree *)

Section more_tree.

Implicit Types (s : world) (data : workspace) (p : page) (n : node).
Implicit Types (x y c r k : string) (cs : list string) (ns : list node).

Lemma mirrors_Node data x t ns :
  mirrors data (Node x t ns)
  ↔ (∃ p, data !! x = Some p ∧ t = title p ∧ node_id <$> ns = children p)
    ∧ Forall (mirrors data) ns.
Proof.
  assert ((fix go (ns : list node) : Prop :=
             match ns with
             | [] => True
             | m :: ns' => mirrors data m ∧ go ns'
             end) ns ↔ Forall (mirrors data) ns) as Hgo.
  { induction ns as [|m ns IH]; [by split; [constructor|]|].
    by rewrite Forall_cons, IH. }
  simpl. rewrite Hgo. apply and_iff_compat_r.
  destruct (data !! x) as [p|]; [|naive_solver]. split; [|naive_solver].
  intros [??]. by exists p.
Qed.

Lemma mapM_res_Ret {A B} (g : A → res B) (l : list A) (k : list B) :
  mapM g l = Ret k → Forall2 (λ a b, g a = Ret b) l k.
Proof.
  revert k. induction l as [|a l IH]; intros k; simpl.
  - intros [= <-]. constructor.
  - destruct (g a) as [b| |] eqn:Hg; simpl; [|done..].
    destruct (mapM g l) as [k'| |]; simpl; [|done..].
    intros [= <-]. constructor; [done|by apply IH].
Qed.

(** Whatever [build_node] returns mirrors the workspace. *)
Lemma build_node_mirrors fuel data x n :
  build_node fuel data x = Ret n → node_id n = x ∧ mirrors data n.
Proof.
  revert x n. induction fuel as [|fuel IH]; intros x n; [done|].
  rewrite build_node_S. destruct (data !! x) as [p|] eqn:Hx; [|done].
  destruct (mapM _ (children p)) as [ns| |] eqn:Hns; simpl; [|done..].
  intros [= <-]. split; [done|]. apply mirrors_Node.
  apply mapM_res_Ret in Hns. split.
  - exists p. split; [done|]. split; [done|].
    clear Hx. induction Hns as [|c m cs ns Hc _ IHns]; [done|].
    rewrite fmap_cons, IHns. f_equal. by apply (IH c m).
  - clear Hx. induction Hns as [|c m cs ns Hc _ IHns]; constructor; [|done].
    by apply (IH c m).
Qed.

(** X20: on a workspace with no dangling child and no cycle the forest of
    [get_page_tree] has one tree for each root, in the order of [root_ids],
    and in every tree each node carries the title of its page and has, in
    order, one child node for each entry of the children list of the
    page. *)
Theorem get_page_tree_mirrors s :
  no_dangling (DATA s) →
  acyclic (DATA s) →
  ∃ fuel forest,
    (∀ f, fuel ≤ f → get_page_tree f s = Ret forest)
    ∧ node_id <$> forest = root_ids (DATA s)
    ∧ Forall (mirrors (DATA s)) forest.
Proof.
  intros Hdang Hacyc. unfold get_page_tree.
  destruct (mapM_build_node (DATA s) (λ _ _, True) (root_ids (DATA s)))
    as (fuel & forest & Hforest & _).
  { intros r [Hr _]%elem_of_root_ids.
    destruct (build_node_sn (DATA s) r) as (fuel & n & Hn & _);
      [done|by apply acyclic_sn|done|]. by exists fuel, n. }
  exists fuel, forest. split; [done|].
  specialize (Hforest fuel (le_n _)). apply mapM_res_Ret in Hforest.
  split.
  - induction Hforest as [|r n rs ns Hr _ IH]; [done|].
    rewrite fmap_cons, IH. f_equal. by apply build_node_mirrors in Hr as [? _].
  - induction Hforest as [|r n rs ns Hr _ IH]; constructor; [|done].
    by apply build_node_mirrors in Hr as [_ ?].
Qed.

Lemma get_page_tree_mirrors_witness :
  ∃ fuel forest,
    (∀ f, fuel ≤ f → get_page_tree f (World family NoFile ∅) = Ret forest)
    ∧ node_id <$> forest = root_ids family
    ∧ Forall (mirrors family) forest.
Proof.
  destruct family_well_formed as (Hdang & Hacyc & _).
  exact (get_page_tree_mirrors (World family NoFile ∅) Hdang Hacyc).
Defined.

(** ** Dangling children *)

Lemma mapM_build_explores data cs :
  (∀ c, c ∈ cs →
     ∃ fuel (r : res node), (∀ f, fuel ≤ f → build_node f data c = r) ∧ explores data c r) →
  ∃ fuel (r : res (list node)),
    (∀ f, fuel ≤ f → mapM (build_node f data) cs = r)
    ∧ ((∃ ns, r = Ret ns) ∧ (∀ c y, c ∈ cs → reach data c y → is_Some (data !! y))
       ∨ ∃ c k, r = Raise (KeyError k) ∧ c ∈ cs ∧ reach data c k ∧ data !! k = None).
Proof.
  induction cs as [|c cs IH]; intros Hcs.
  { exists 0, (Ret []). split; [done|]. left. split; [by eexists|].
    intros c y Hc. by apply elem_of_nil in Hc. }
  destruct (Hcs c) as (fuel1 & r1 & Hr1 & Hex1); [left|].
  destruct IH as (fuel2 & r2 & Hr2 & Hex2).
  { intros c' Hc'. apply Hcs. by right. }
  destruct r1 as [n|[k|]|]; simpl in Hex1; [| |done..].
  2:{ exists fuel1, (Raise (KeyError k)). split.
      - intros f Hf. simpl. by rewrite Hr1.
      - right. exists c, k. destruct Hex1. split; [done|]. split; [left|done]. }
  destruct Hex2 as [[[ns ->] Hkeys]|(c' & k & -> & Hc' & Hreach & Hk)].
  - exists (fuel1 `max` fuel2), (Ret (n :: ns)). split.
    + intros f Hf. simpl. rewrite Hr1 by lia. simpl. by rewrite Hr2 by lia.
    + left. split; [by eexists|]. intros c' y [->|Hc']%elem_of_cons; [apply Hex1|].
      by apply Hkeys.
  - exists (fuel1 `max` fuel2), (Raise (KeyError k)). split.
    + intros f Hf. simpl. rewrite Hr1 by lia. simpl. by rewrite Hr2 by lia.
    + right. exists c', k. split; [done|]. split; [by right|done].
Qed.

Lemma build_node_explores data x :
  sn (child data) x →
  ∃ fuel (r : res node), (∀ f, fuel ≤ f → build_node f data x = r) ∧ explores data x r.
Proof.
  induction 1 as [x _ IH].
  destruct (data !! x) as [p|] eqn:Hx.
  2:{ exists 1, (Raise (KeyError x)). split.
      - intros [|f] Hf; [lia|]. by rewrite build_node_S, Hx.
      - by split. }
  destruct (mapM_build_explores data (children p)) as (fuel & r & Hr & Hex).
  { intros c Hc. apply IH. by exists p. }
  destruct Hex as [[[ns ->] Hkeys]|(c & k & -> & Hc & Hreach & Hk)].
  - exists (S fuel), (Ret (Node x (title p) ns)). split.
    + intros [|f] Hf; [lia|]. by rewrite build_node_S, Hx, Hr by lia.
    + simpl. intros y [->|(c & (p' & Hp' & Hc) & Hreach)]%rtc_inv; [by eexists|].
      simplify_eq. by eapply Hkeys.
  - exists (S fuel), (Raise (KeyError k)). split.
    + intros [|f] Hf; [lia|]. by rewrite build_node_S, Hx, Hr by lia.
    + split; [|done]. eapply rtc_l; [|done]. by exists p.
Qed.

Lemma tc_flip_child data x y :
  tc (flip (child data)) x y → tc (child data) y x.
Proof.
  induction 1 as [x y Hxy|x y z Hxy _ IH]; [by apply tc_once|].
  by eapply tc_r.
Qed.

(** In a workspace without cycles every page is a root or under one. *)
Lemma root_above data x :
  acyclic data → is_Some (data !! x) → ∃ r, is_root data r ∧ reach data r x.
Proof.
  intros Hacyc.
  assert (sn (flip (child data)) x) as Hsn.
  { apply tc_finite_sn.
    - intros y Hy%tc_flip_child. by apply (Hacyc y).
    - exists (map_to_list data).*1. intros y Hy.
      assert (∃ z, child data y z) as (z & p & Hp & _).
      { clear Hacyc. induction Hy; eauto. }
      apply list_elem_of_fmap. exists (y, p). split; [done|].
      by apply elem_of_map_to_list. }
  induction Hsn as [x _ IH]. intros Hx.
  destruct (decide (x ∈ all_children data)) as [Hin|Hout].
  - apply elem_of_all_children in Hin as (z & Hz).
    destruct (IH z Hz) as (r & Hr & Hreach); [destruct Hz as (p & -> & _); by eexists|].
    exists r. split; [done|]. by eapply rtc_r.
  - exists x. split; [|done]. split; [done|].
    intros z Hz. apply Hout, elem_of_all_children. by exists z.
Qed.

(** X21: on a workspace without cycles in which some page lists a child
    that is no key, [get_page_tree] returns no forest: for every fuel from
    some bound on it raises the [KeyError] of an identifier that is listed
    as a child and is no key. *)
Theorem get_page_tree_dangling_raises s x k :
  acyclic (DATA s) →
  child (DATA s) x k →
  DATA s !! k = None →
  ∃ fuel k',
    (∀ f, fuel ≤ f → get_page_tree f s = Raise (KeyError k'))
    ∧ DATA s !! k' = None
    ∧ ∃ x', child (DATA s) x' k'.
Proof.
  intros Hacyc Hxk Hk. unfold get_page_tree.
  destruct (mapM_build_explores (DATA s) (root_ids (DATA s))) as (fuel & r & Hr & Hex).
  { intros c _. by apply build_node_explores, acyclic_sn. }
  destruct Hex as [[_ Hkeys]|(c & k' & -> & Hc & Hreach & Hk')].
  - destruct (root_above (DATA s) x Hacyc) as (c & Hc & Hreach).
    { destruct Hxk as (p & -> & _). by eexists. }
    destruct (Hkeys c k) as [? Hsome]; [by apply elem_of_root_ids|by eapply rtc_r|].
    congruence.
  - exists fuel, k'. split; [done|]. split; [done|].
    apply elem_of_root_ids in Hc as [[p Hp] _].
    apply rtc_inv_r in Hreach as [->|(x' & _ & Hx')]; [congruence|]. by exists x'.
Qed.

Lemma get_page_tree_dangling_raises_witness :
  ∃ fuel k',
    (∀ f, fuel ≤ f → get_page_tree f (World torn NoFile ∅) = Raise (KeyError k'))
    ∧ torn !! k' = None
    ∧ ∃ x', child torn x' k'.
Proof.
  apply (get_page_tree_dangling_raises (World torn NoFile ∅) "c" "gone").
  - apply (ranked_acyclic torn_rank). apply (bool_decide_unpack _). by vm_compute.
  - exists (Page "C" "" ["gone"] []). split; [reflexivity|]. by left.
  - reflexivity.
Defined.

End more_tree.
